(** * The Timeline sequencer of [src/timeline.ts]

    A shallow embedding of the [Timeline] class: position resolution
    ([add]), the label table ([addLabel]), duration bookkeeping
    ([calculateDuration]), the playback state machine ([play], [pause],
    [reverse], [togglePlayPause]), the per-frame tick ([runAnimations]
    and its helpers), seeking ([seek], [progress]) and the tween builder
    ([to]) together with the closure it installs as [onChange].

    Numbers.  A JavaScript number is modelled as an exact rational or
    [NaN]; rounding of doubles, signed zeros and the infinities are not
    part of the model.  Numeric results are compared with [==n], equality
    of rationals lifted to [num].

    Labels.  [labels] is a plain object, so a read [this.labels[name]]
    also finds what the object inherits from [Object.prototype]
    ([constructor], [toString], ...).  The model keeps the own properties
    in a finite map and answers the inherited names with [JS.Obj]; see
    [getLabel] and [setLabel].  Such a value can reach [currentTime]
    (through [play]) and the position of an entry (through [add]). *)

From Stdlib Require Import QArith Qround Qminmax Lqa ZArith Lia Ascii String List.
From stdpp Require Import base option list gmap strings.

Local Open Scope Q_scope.

(** ** JavaScript numbers *)

Module JS.

Inductive num : Type :=
| NaN : num
| Fin (q : Q) : num.

Definition lift2 (f : Q -> Q -> Q) (a b : num) : num :=
  match a, b with
  | Fin x, Fin y => Fin (f x y)
  | _, _ => NaN
  end.

Definition add : num -> num -> num := lift2 Qplus.
Definition sub : num -> num -> num := lift2 Qminus.
Definition mul : num -> num -> num := lift2 Qmult.

(** [a / b].  JavaScript yields an infinity for a non-zero numerator over
    zero; the model has no infinities and answers [NaN].  The timeline
    divides by the literal 1000 and, in [calculateCurrentTime], by the
    cycle duration, where the quotient is only tested by
    [Math.floor(q) % 2 === 1], a test that is false for an infinity and
    for [NaN] alike. *)
Definition div (a b : num) : num :=
  match a, b with
  | Fin x, Fin y => if Qeq_bool y 0 then NaN else Fin (x / y)
  | _, _ => NaN
  end.

(** Truncation towards zero, the rounding behind the [%] operator. *)
Definition Qtrunc (q : Q) : Z := Z.quot (Qnum q) (Zpos (Qden q)).

(** [a % b]: the remainder takes the sign of the dividend; [NaN] when the
    divisor is zero. *)
Definition rem (a b : num) : num :=
  match a, b with
  | Fin x, Fin y =>
      if Qeq_bool y 0 then NaN else Fin (x - y * inject_Z (Qtrunc (x / y)))
  | _, _ => NaN
  end.

(** [Math.floor]. *)
Definition floor (a : num) : num :=
  match a with
  | Fin x => Fin (inject_Z (Qfloor x))
  | NaN => NaN
  end.

(** [Math.max(a, b)]: [NaN] as soon as one argument is. *)
Definition max (a b : num) : num :=
  match a, b with
  | Fin x, Fin y => if Qle_bool x y then Fin y else Fin x
  | _, _ => NaN
  end.

(** Comparisons; each is false when an operand is [NaN]. *)
Definition leb (a b : num) : bool :=
  match a, b with
  | Fin x, Fin y => Qle_bool x y
  | _, _ => false
  end.

Definition ltb (a b : num) : bool :=
  match a, b with
  | Fin x, Fin y => negb (Qle_bool y x)
  | _, _ => false
  end.

Definition geb (a b : num) : bool := leb b a.
Definition gtb (a b : num) : bool := ltb b a.

(** [a === b] on numbers. *)
Definition eqb (a b : num) : bool :=
  match a, b with
  | Fin x, Fin y => Qeq_bool x y
  | _, _ => false
  end.

(** Truthiness of a number: everything but zero and [NaN]. *)
Definition truthy (a : num) : bool :=
  match a with
  | Fin x => negb (Qeq_bool x 0)
  | NaN => false
  end.

(** [a ?? d] and [a || d] on an optional number ([None] is [undefined]). *)
Definition nullish (a : option num) (d : num) : num :=
  match a with
  | Some x => x
  | None => d
  end.

Definition falsy_or (a : option num) (d : num) : num :=
  match a with
  | Some x => if truthy x then x else d
  | None => d
  end.

(** Equality of numbers up to the representation of the rational. *)
Definition num_eq (a b : num) : Prop :=
  match a, b with
  | NaN, NaN => True
  | Fin x, Fin y => x == y
  | _, _ => False
  end.

(** What a read of the label table returns, and what the field
    [currentTime] holds: a number, or [Obj], a function or object that the
    table inherits from [Object.prototype]. *)
Inductive value : Type :=
| Num (n : num) : value
| Obj : value.

(** The conversion that arithmetic ([-], [*], [Math.max]) and the
    comparisons apply to an operand: a function, and the prototype object
    itself, convert to [NaN]. *)
Definition ToNumber (v : value) : num :=
  match v with
  | Num n => n
  | Obj => NaN
  end.

(** Truthiness of a value: every object is truthy. *)
Definition truthyValue (v : value) : bool :=
  match v with
  | Num n => truthy n
  | Obj => true
  end.

End JS.

(** A number is a value; a value used as an operand is converted, as
    JavaScript does. *)
Coercion JS.Num : JS.num >-> JS.value.
#[warnings="-ambiguous-paths"]
Coercion JS.ToNumber : JS.value >-> JS.num.

Declare Scope num_scope.
Delimit Scope num_scope with num.
Bind Scope num_scope with JS.num.
Infix "+" := JS.add : num_scope.
Infix "-" := JS.sub : num_scope.
Infix "*" := JS.mul : num_scope.
Infix "/" := JS.div : num_scope.
Infix "%%" := JS.rem (at level 40, left associativity) : num_scope.
Infix "<=?" := JS.leb : num_scope.
Infix "<?" := JS.ltb : num_scope.
Infix ">=?" := JS.geb (at level 70) : num_scope.
Infix ">?" := JS.gtb (at level 70) : num_scope.
Infix "==n" := JS.num_eq (at level 70, no associativity).

(** ** Strings: the methods and the two regular expressions the class uses *)

Module Text.

Local Open Scope char_scope.
Local Open Scope string_scope.

Definition isDigit (c : ascii) : bool :=
  (48 <=? nat_of_ascii c)%nat && (nat_of_ascii c <=? 57)%nat.

(** White space skipped by [Number] and [parseFloat] (the ASCII part). *)
Definition isWhite (c : ascii) : bool :=
  let n := nat_of_ascii c in
  ((9 <=? n)%nat && (n <=? 13)%nat) || (n =? 32)%nat.

(** [s.startsWith(c)] for a one-character [c]. *)
Definition startsWith (c : ascii) (s : string) : bool :=
  match s with
  | String d _ => Ascii.eqb c d
  | EmptyString => false
  end.

(** [s.includes(c)] for a one-character [c]. *)
Fixpoint includes (c : ascii) (s : string) : bool :=
  match s with
  | String d r => Ascii.eqb c d || includes c r
  | EmptyString => false
  end.

(** [s.substring(n)]. *)
Fixpoint substringFrom (n : nat) (s : string) : string :=
  match n, s with
  | S k, String _ r => substringFrom k r
  | _, _ => s
  end.

(** [s.substring(0, n)]. *)
Fixpoint substringTo (n : nat) (s : string) : string :=
  match n, s with
  | S k, String c r => String c (substringTo k r)
  | _, _ => EmptyString
  end.

Definition nonEmpty (s : string) : bool :=
  match s with
  | EmptyString => false
  | String _ _ => true
  end.

(** The longest run of digits at the head of [s], and what follows. *)
Fixpoint spanDigits (s : string) : string * string :=
  match s with
  | String c r =>
      if isDigit c
      then let '(ds, rest) := spanDigits r in (String c ds, rest)
      else (EmptyString, s)
  | EmptyString => (EmptyString, EmptyString)
  end.

(** The sub-pattern [[-+]?\d*\.?\d+] (with [plus = true]) or
    [[-]?\d*\.?\d+] (with [plus = false]) matched at the head of [s]:
    the captured text and the rest of the input.  Greedy matching with
    backtracking gives: every leading digit; then a dot and the digits
    after it when there is at least one; the dot is given back when no
    digit follows it, and then one leading digit at least is needed. *)
Definition scanNumber (plus : bool) (s : string) : option (string * string) :=
  let '(sign, r) :=
    match s with
    | String c r' =>
        if Ascii.eqb c "-" || (plus && Ascii.eqb c "+")
        then (String c EmptyString, r') else (EmptyString, s)
    | EmptyString => (EmptyString, s)
    end in
  let '(ds, r1) := spanDigits r in
  let whole := if nonEmpty ds then Some (sign ++ ds, r1) else None in
  match r1 with
  | String "." r2 =>
      let '(fs, r3) := spanDigits r2 in
      if nonEmpty fs then Some (sign ++ ds ++ "." ++ fs, r3) else whole
  | _ => whole
  end.

(** [position.match(/^([<>])([=]?)([-+]?\d*\.?\d+)/)]: the three groups,
    or [None] when the expression does not match at the start. *)
Definition matchRelativePosition (s : string) : option (ascii * bool * string) :=
  match s with
  | String c r =>
      if Ascii.eqb c "<" || Ascii.eqb c ">" then
        let '(hasEquals, r') :=
          match r with
          | String "=" r' => (true, r')
          | _ => (false, r)
          end in
        match scanNumber true r' with
        | Some (g, _) => Some (c, hasEquals, g)
        | None => None
        end
      else None
  | EmptyString => None
  end.

(** [propertyValue.match(/^([+-]=)([-]?\d*\.?\d+)$/)]: the two groups, or
    [None] when the whole string is not of that form. *)
Definition matchRelativeValue (s : string) : option (string * string) :=
  match s with
  | String c (String "=" r) =>
      if Ascii.eqb c "+" || Ascii.eqb c "-" then
        match scanNumber false r with
        | Some (g, EmptyString) => Some (String c "=", g)
        | _ => None
        end
      else None
  | _ => None
  end.

(** *** Reading decimal literals *)

Definition digitValue (c : ascii) : Z := Z.of_nat (nat_of_ascii c - 48).

Fixpoint digitsValue (acc : Z) (s : string) : Z :=
  match s with
  | String c r => digitsValue (10 * acc + digitValue c) r
  | EmptyString => acc
  end.

Definition readSign (s : string) : Z * string :=
  match s with
  | String "-" r => ((-1)%Z, r)
  | String "+" r => (1%Z, r)
  | _ => (1%Z, s)
  end.

(** The exponent part [[eE][-+]?\d+] when it is there and well formed. *)
Definition readExponent (s : string) : Z * string :=
  match s with
  | String c r =>
      if Ascii.eqb c "e" || Ascii.eqb c "E" then
        let '(sg, r1) := readSign r in
        let '(es, r2) := spanDigits r1 in
        if nonEmpty es then ((sg * digitsValue 0 es)%Z, r2) else (0%Z, s)
      else (0%Z, s)
  | EmptyString => (0%Z, s)
  end.

(** The longest decimal literal at the head of [s] (sign, digits, a
    fraction, an exponent) with its value, and the rest of the input. *)
Definition readDecimal (s : string) : option (Q * string) :=
  let '(sg, r) := readSign s in
  let '(ds, r1) := spanDigits r in
  let '(fs, r2) :=
    match r1 with
    | String "." r' =>
        let '(fs, r'') := spanDigits r' in
        if nonEmpty ds || nonEmpty fs then (fs, r'') else (EmptyString, r1)
    | _ => (EmptyString, r1)
    end in
  if nonEmpty ds || nonEmpty fs then
    let '(e, r3) := readExponent r2 in
    let mantissa := (sg * digitsValue 0 (ds ++ fs))%Z in
    Some (inject_Z mantissa * Qpower 10 (e - Z.of_nat (String.length fs)), r3)
  else None.

Fixpoint trimStart (s : string) : string :=
  match s with
  | String c r => if isWhite c then trimStart r else s
  | EmptyString => EmptyString
  end.

Fixpoint trimEnd (s : string) : string :=
  match s with
  | String c r =>
      match trimEnd r with
      | EmptyString => if isWhite c then EmptyString else String c EmptyString
      | r' => String c r'
      end
  | EmptyString => EmptyString
  end.

(** The value of [c] as a digit in [radix] (2, 8 or 16). *)
Definition radixDigit (radix : Z) (c : ascii) : option Z :=
  let n := Z.of_nat (nat_of_ascii c) in
  let v :=
    if (48 <=? n)%Z && (n <=? 57)%Z then (n - 48)%Z
    else if (97 <=? n)%Z && (n <=? 102)%Z then (n - 87)%Z
    else if (65 <=? n)%Z && (n <=? 70)%Z then (n - 55)%Z
    else radix in
  if (v <? radix)%Z then Some v else None.

Fixpoint radixValue (radix acc : Z) (s : string) : option Z :=
  match s with
  | String c r =>
      match radixDigit radix c with
      | Some v => radixValue radix (radix * acc + v) r
      | None => None
      end
  | EmptyString => Some acc
  end.

(** The literals [0x..], [0o..] and [0b..] (unsigned, one digit at least). *)
Definition readNonDecimal (t : string) : option Z :=
  match t with
  | String "0" (String c digits) =>
      let radix :=
        if Ascii.eqb c "x" || Ascii.eqb c "X" then Some 16%Z
        else if Ascii.eqb c "o" || Ascii.eqb c "O" then Some 8%Z
        else if Ascii.eqb c "b" || Ascii.eqb c "B" then Some 2%Z
        else None in
      match radix with
      | Some b => if nonEmpty digits then radixValue b 0 digits else None
      | None => None
      end
  | _ => None
  end.

(** [Number(s)]: the empty (or blank) string is 0; a hexadecimal, octal or
    binary literal, or a decimal literal, that fills the trimmed string is
    its value; anything else is [NaN].  The literal [Infinity], and a
    literal beyond the range of a double, read as an infinity in
    JavaScript and are outside the number model. *)
Definition Number (s : string) : JS.num :=
  match trimEnd (trimStart s) with
  | EmptyString => JS.Fin 0
  | t =>
      match readNonDecimal t with
      | Some z => JS.Fin (inject_Z z)
      | None =>
          match readDecimal t with
          | Some (q, EmptyString) => JS.Fin q
          | _ => JS.NaN
          end
      end
  end.

(** [parseFloat(s)]: the value of the longest decimal literal after the
    leading white space, [NaN] when there is none.  The literal
    [Infinity], and a literal beyond the range of a double, read as an
    infinity in JavaScript and are outside the number model. *)
Definition parseFloat (s : string) : JS.num :=
  match readDecimal (trimStart s) with
  | Some (q, _) => JS.Fin q
  | None => JS.NaN
  end.

End Text.

(** ** The data model *)

Module Timeline.

Local Open Scope string_scope.
Local Open Scope num_scope.

Abbreviation num := JS.num.

(** [(t, b, c, d) => number]. *)
Definition Easing : Type := num -> num -> num -> num -> num.

(** A value of the [properties] argument of [to] (declared [any]): a
    number, a string, or something else. *)
Inductive jsval : Type :=
| VNumber (n : num)
| VString (s : string)
| VOther.

(** [typeof v === 'number'], with the number. *)
Definition asNumber (v : jsval) : option num :=
  match v with
  | VNumber n => Some n
  | _ => None
  end.

(** A position: the [position?: number | string] of an entry and of the
    arguments of [add], [addLabel] and [play].  [PObject] is what [add]
    stores when the label table answers with a member of
    [Object.prototype]: a value that is neither [undefined], nor a number,
    nor a string. *)
Inductive posval : Type :=
| PUndefined
| PNumber (n : num)
| PString (s : string)
| PObject.

Definition isString (p : posval) : bool :=
  match p with
  | PString _ => true
  | _ => false
  end.

(** The host's objects.  A target is a reference into a store of objects;
    an object is its numeric properties (a property that is absent reads
    [undefined]).  Non-numeric properties of a target are not modelled. *)
Abbreviation objref := nat (only parsing).
Abbreviation FabricObject := (gmap string JS.num) (only parsing).
Abbreviation Store := (gmap nat (gmap string JS.num)) (only parsing).

(** A callback: one of the host's, known by its identity only, or the
    empty function [() => {}] that [to] installs as [onComplete]. *)
Inductive Callback : Type :=
| Noop
| Host (id : nat).

(** The closure that [to] installs as [onChange]: the variables it
    captures.  [startValues] and [endValues] are the two objects filled by
    the loop of [to], in the order of their keys. *)
Record Tween : Type := {
  object : objref;
  startValues : list (string * option num);
  endValues : list (string * jsval)
}.

Module AnimationOptions.
Record t : Type := {
  duration : option num;
  easing : option Easing;
  endValue : option num;
  onChange : option Tween;
  onComplete : option Callback;
  startValue : option num
}.
End AnimationOptions.

(** An element of [animations].  The [animationFunction] field is never
    called by the class and is left out. *)
Record Animation : Type := {
  options : AnimationOptions.t;
  position : posval
}.

Inductive direction : Type := forward | backward.

(** The fields of the class.  [labels] holds the own properties of the
    object [labels]; reads and writes go through [getLabel] and
    [setLabel].  [startTime] and [animationFrameId] are [None] when the
    field is [null]. *)

Record Timeline : Type := {
  animations : list Animation;
  labels : gmap string JS.num;
  currentTime : JS.value;
  duration : num;
  isPlayingInternal : bool;
  playDirection : direction;
  startTime : option num;
  isPausedInternal : bool;
  repeat : num;
  repeatDelay : num;
  repeatCount : num;
  shouldYoyo : bool;
  onCompleteCallback : option Callback;
  onUpdateCallback : option Callback;
  onRepeatCallback : option Callback;
  onReverseCompleteCallback : option Callback;
  animationFrameId : option nat
}.

(** What a method does to its environment, in order. *)
Inductive event : Type :=
| OnChange (entry : nat) (elapsed : num)
| Call (c : Callback)
| Warn (msg : string)
| RequestAnimFrame (id : nat)
| CancelAnimFrame (id : nat).

(** Field assignments [this.f = v]. *)
Definition set_animations (v : list Animation) (tl : Timeline) : Timeline :=
  {| animations := v; labels := labels tl; currentTime := currentTime tl;
     duration := duration tl;
     isPlayingInternal := isPlayingInternal tl;
     playDirection := playDirection tl; startTime := startTime tl;
     isPausedInternal := isPausedInternal tl; repeat := repeat tl;
     repeatDelay := repeatDelay tl; repeatCount := repeatCount tl;
     shouldYoyo := shouldYoyo tl;
     onCompleteCallback := onCompleteCallback tl;
     onUpdateCallback := onUpdateCallback tl;
     onRepeatCallback := onRepeatCallback tl;
     onReverseCompleteCallback := onReverseCompleteCallback tl;
     animationFrameId := animationFrameId tl |}.

Definition set_labels (v : gmap string JS.num) (tl : Timeline) : Timeline :=
  {| animations := animations tl; labels := v; currentTime := currentTime tl;
     duration := duration tl;
     isPlayingInternal := isPlayingInternal tl;
     playDirection := playDirection tl; startTime := startTime tl;
     isPausedInternal := isPausedInternal tl; repeat := repeat tl;
     repeatDelay := repeatDelay tl; repeatCount := repeatCount tl;
     shouldYoyo := shouldYoyo tl;
     onCompleteCallback := onCompleteCallback tl;
     onUpdateCallback := onUpdateCallback tl;
     onRepeatCallback := onRepeatCallback tl;
     onReverseCompleteCallback := onReverseCompleteCallback tl;
     animationFrameId := animationFrameId tl |}.

Definition set_currentTime (v : JS.value) (tl : Timeline) : Timeline :=
  {| animations := animations tl; labels := labels tl; currentTime := v;
     duration := duration tl;
     isPlayingInternal := isPlayingInternal tl;
     playDirection := playDirection tl; startTime := startTime tl;
     isPausedInternal := isPausedInternal tl; repeat := repeat tl;
     repeatDelay := repeatDelay tl; repeatCount := repeatCount tl;
     shouldYoyo := shouldYoyo tl;
     onCompleteCallback := onCompleteCallback tl;
     onUpdateCallback := onUpdateCallback tl;
     onRepeatCallback := onRepeatCallback tl;
     onReverseCompleteCallback := onReverseCompleteCallback tl;
     animationFrameId := animationFrameId tl |}.

Definition set_duration (v : num) (tl : Timeline) : Timeline :=
  {| animations := animations tl; labels := labels tl;
     currentTime := currentTime tl; duration := v;
     isPlayingInternal := isPlayingInternal tl;
     playDirection := playDirection tl; startTime := startTime tl;
     isPausedInternal := isPausedInternal tl; repeat := repeat tl;
     repeatDelay := repeatDelay tl; repeatCount := repeatCount tl;
     shouldYoyo := shouldYoyo tl;
     onCompleteCallback := onCompleteCallback tl;
     onUpdateCallback := onUpdateCallback tl;
     onRepeatCallback := onRepeatCallback tl;
     onReverseCompleteCallback := onReverseCompleteCallback tl;
     animationFrameId := animationFrameId tl |}.

Definition set_isPlayingInternal (v : bool) (tl : Timeline) : Timeline :=
  {| animations := animations tl; labels := labels tl;
     currentTime := currentTime tl; duration := duration tl;
     isPlayingInternal := v;
     playDirection := playDirection tl; startTime := startTime tl;
     isPausedInternal := isPausedInternal tl; repeat := repeat tl;
     repeatDelay := repeatDelay tl; repeatCount := repeatCount tl;
     shouldYoyo := shouldYoyo tl;
     onCompleteCallback := onCompleteCallback tl;
     onUpdateCallback := onUpdateCallback tl;
     onRepeatCallback := onRepeatCallback tl;
     onReverseCompleteCallback := onReverseCompleteCallback tl;
     animationFrameId := animationFrameId tl |}.

Definition set_playDirection (v : direction) (tl : Timeline) : Timeline :=
  {| animations := animations tl; labels := labels tl;
     currentTime := currentTime tl; duration := duration tl;
     isPlayingInternal := isPlayingInternal tl;
     playDirection := v; startTime := startTime tl;
     isPausedInternal := isPausedInternal tl; repeat := repeat tl;
     repeatDelay := repeatDelay tl; repeatCount := repeatCount tl;
     shouldYoyo := shouldYoyo tl;
     onCompleteCallback := onCompleteCallback tl;
     onUpdateCallback := onUpdateCallback tl;
     onRepeatCallback := onRepeatCallback tl;
     onReverseCompleteCallback := onReverseCompleteCallback tl;
     animationFrameId := animationFrameId tl |}.

Definition set_startTime (v : option num) (tl : Timeline) : Timeline :=
  {| animations := animations tl; labels := labels tl;
     currentTime := currentTime tl; duration := duration tl;
     isPlayingInternal := isPlayingInternal tl;
     playDirection := playDirection tl; startTime := v;
     isPausedInternal := isPausedInternal tl; repeat := repeat tl;
     repeatDelay := repeatDelay tl; repeatCount := repeatCount tl;
     shouldYoyo := shouldYoyo tl;
     onCompleteCallback := onCompleteCallback tl;
     onUpdateCallback := onUpdateCallback tl;
     onRepeatCallback := onRepeatCallback tl;
     onReverseCompleteCallback := onReverseCompleteCallback tl;
     animationFrameId := animationFrameId tl |}.

Definition set_isPausedInternal (v : bool) (tl : Timeline) : Timeline :=
  {| animations := animations tl; labels := labels tl;
     currentTime := currentTime tl; duration := duration tl;
     isPlayingInternal := isPlayingInternal tl;
     playDirection := playDirection tl; startTime := startTime tl;
     isPausedInternal := v; repeat := repeat tl;
     repeatDelay := repeatDelay tl; repeatCount := repeatCount tl;
     shouldYoyo := shouldYoyo tl;
     onCompleteCallback := onCompleteCallback tl;
     onUpdateCallback := onUpdateCallback tl;
     onRepeatCallback := onRepeatCallback tl;
     onReverseCompleteCallback := onReverseCompleteCallback tl;
     animationFrameId := animationFrameId tl |}.

Definition set_repeatCount (v : num) (tl : Timeline) : Timeline :=
  {| animations := animations tl; labels := labels tl;
     currentTime := currentTime tl; duration := duration tl;
     isPlayingInternal := isPlayingInternal tl;
     playDirection := playDirection tl; startTime := startTime tl;
     isPausedInternal := isPausedInternal tl; repeat := repeat tl;
     repeatDelay := repeatDelay tl; repeatCount := v;
     shouldYoyo := shouldYoyo tl;
     onCompleteCallback := onCompleteCallback tl;
     onUpdateCallback := onUpdateCallback tl;
     onRepeatCallback := onRepeatCallback tl;
     onReverseCompleteCallback := onReverseCompleteCallback tl;
     animationFrameId := animationFrameId tl |}.

Definition set_shouldYoyo (v : bool) (tl : Timeline) : Timeline :=
  {| animations := animations tl; labels := labels tl;
     currentTime := currentTime tl; duration := duration tl;
     isPlayingInternal := isPlayingInternal tl;
     playDirection := playDirection tl; startTime := startTime tl;
     isPausedInternal := isPausedInternal tl; repeat := repeat tl;
     repeatDelay := repeatDelay tl; repeatCount := repeatCount tl;
     shouldYoyo := v;
     onCompleteCallback := onCompleteCallback tl;
     onUpdateCallback := onUpdateCallback tl;
     onRepeatCallback := onRepeatCallback tl;
     onReverseCompleteCallback := onReverseCompleteCallback tl;
     animationFrameId := animationFrameId tl |}.

Definition set_animationFrameId (v : option nat) (tl : Timeline) : Timeline :=
  {| animations := animations tl; labels := labels tl;
     currentTime := currentTime tl; duration := duration tl;
     isPlayingInternal := isPlayingInternal tl;
     playDirection := playDirection tl; startTime := startTime tl;
     isPausedInternal := isPausedInternal tl; repeat := repeat tl;
     repeatDelay := repeatDelay tl; repeatCount := repeatCount tl;
     shouldYoyo := shouldYoyo tl;
     onCompleteCallback := onCompleteCallback tl;
     onUpdateCallback := onUpdateCallback tl;
     onRepeatCallback := onRepeatCallback tl;
     onReverseCompleteCallback := onReverseCompleteCallback tl;
     animationFrameId := v |}.

(** *** The label table

    [labels] is created by the literal [{}]: its prototype is
    [Object.prototype], whose properties (those of ECMAScript, with the
    legacy accessors every engine provides) are found by a read of a name
    the object does not own.  The host is taken not to have added
    properties of its own to [Object.prototype]. *)
Definition prototypeNames : list string :=
  ["constructor"; "hasOwnProperty"; "isPrototypeOf"; "propertyIsEnumerable";
   "toLocaleString"; "toString"; "valueOf"; "__defineGetter__";
   "__defineSetter__"; "__lookupGetter__"; "__lookupSetter__"; "__proto__"].

Definition inherited (name : string) : bool :=
  existsb (String.eqb name) prototypeNames.

(** [labels[name]]: the own property when there is one, else the member
    of [Object.prototype] of that name, else [undefined] ([None]).
    [__proto__] is an accessor of [Object.prototype] that no assignment
    shadows: it always reads the prototype object. *)
Definition getLabel (labels : gmap string JS.num) (name : string)
    : option JS.value :=
  if String.eqb name "__proto__" then Some JS.Obj
  else
    match labels !! name with
    | Some n => Some (JS.Num n)
    | None => if inherited name then Some JS.Obj else None
    end.

(** [labels[name] = v] for a number [v]: an own property is created or
    overwritten, also under an inherited name; the setter of [__proto__]
    ignores a number and nothing is stored. *)
Definition setLabel (name : string) (v : num) (labels : gmap string JS.num)
    : gmap string JS.num :=
  if String.eqb name "__proto__" then labels else <[name := v]> labels.

(** The getters [isPlaying] and [isPaused]. *)
Definition isPlaying (tl : Timeline) : bool := isPlayingInternal tl.
Definition isPaused (tl : Timeline) : bool := isPausedInternal tl.

(** ** The methods *)

Module TimelineOptions.
Record t : Type := {
  onComplete : option Callback;
  onUpdate : option Callback;
  onRepeat : option Callback;
  onReverseComplete : option Callback;
  repeat : option num;
  repeatDelay : option num;
  yoyo : option bool
}.
Definition empty : t :=
  {| onComplete := None; onUpdate := None; onRepeat := None;
     onReverseComplete := None; repeat := None; repeatDelay := None;
     yoyo := None |}.
End TimelineOptions.

(** [yoyo(value?)]: the getter without an argument, the setter with one. *)
Definition yoyo (value : option bool) (tl : Timeline) : bool + Timeline :=
  match value with
  | None => inl (shouldYoyo tl)
  | Some v => inr (set_shouldYoyo v tl)
  end.

(** The field initialisers followed by the constructor. *)
Definition new (o : TimelineOptions.t) : Timeline :=
  let this :=
    {| animations := []; labels := ∅; currentTime := JS.Fin 0;
       duration := JS.Fin 0; isPlayingInternal := false;
       playDirection := forward; startTime := None;
       isPausedInternal := false;
       repeat := JS.nullish (TimelineOptions.repeat o) (JS.Fin 0);
       repeatDelay := JS.nullish (TimelineOptions.repeatDelay o) (JS.Fin 0);
       repeatCount := JS.Fin 0; shouldYoyo := false;
       onCompleteCallback := TimelineOptions.onComplete o;
       onUpdateCallback := TimelineOptions.onUpdate o;
       onRepeatCallback := TimelineOptions.onRepeat o;
       onReverseCompleteCallback := TimelineOptions.onReverseComplete o;
       animationFrameId := None |} in
  match yoyo (Some (default false (TimelineOptions.yoyo o))) this with
  | inr this' => this'
  | inl _ => this
  end.

(** One turn of the loop of [calculateDuration]. *)
Definition durationStep (calculatedDuration : num) (animation : Animation) : num :=
  let animDuration :=
    JS.falsy_or (AnimationOptions.duration (options animation)) (JS.Fin 0) in
  let insertPosition :=
    match position animation with
    | PNumber n => n
    | _ => calculatedDuration
    end in
  JS.max calculatedDuration (insertPosition + animDuration).

Definition scanDuration (l : list Animation) : num :=
  fold_left durationStep l (JS.Fin 0).

Definition calculateDuration (tl : Timeline) : Timeline :=
  set_duration (scanDuration (animations tl)) tl.

(** The position that [add] stores for the argument [position]:
    [resolvedPosition], [None] standing for [undefined]. *)
Definition resolvePosition (position : posval) (tl : Timeline)
    : option JS.value :=
  let previousAnimation := list.last (animations tl) in
  let previousAnimationStartTime :=
    match previousAnimation with
    | Some p =>
        match Timeline.position p with
        | PNumber n => n
        | _ => JS.Fin 0
        end
    | None => JS.Fin 0
    end in
  let previousAnimationDuration :=
    match previousAnimation with
    | Some p => JS.nullish (AnimationOptions.duration (options p)) (JS.Fin 0)
    | None => JS.Fin 0
    end in
  match position with
  | PUndefined =>
      Some (JS.Num (previousAnimationStartTime + previousAnimationDuration))
  | PNumber n => Some (JS.Num (n * JS.Fin 1000))
  | PString s =>
      if String.eqb s ">" then
        Some (JS.Num (previousAnimationStartTime + previousAnimationDuration))
      else if String.eqb s "<" then
        Some (JS.Num previousAnimationStartTime)
      else
        match Text.matchRelativePosition s with
        | Some (prefix, hasEquals, g) =>
            let timeValue := Text.Number g in
            if Ascii.eqb prefix "<" then
              Some (JS.Num (previousAnimationStartTime + timeValue * JS.Fin 1000))
            else if Ascii.eqb prefix ">" then
              Some (JS.Num (previousAnimationStartTime + previousAnimationDuration
                            + timeValue * JS.Fin 1000))
            else None
        | None =>
            if (Text.startsWith "+" s || Text.startsWith "-" s)
               && Text.includes "=" s then
              let operator := Text.substringTo 2 s in
              let relativeTime := Text.Number (Text.substringFrom 2 s) in
              if String.eqb operator "+=" then
                Some (JS.Num (duration tl + relativeTime * JS.Fin 1000))
              else if String.eqb operator "-=" then
                Some (JS.Num (JS.max (JS.Fin 0)
                                (duration tl + relativeTime * JS.Fin 1000)))
              else None
            else
              match getLabel (labels tl) s with
              | Some v => if JS.truthyValue v then Some v else None
              | None => None
              end
        end
  | PObject => None
  end.

(** The value of [resolvedPosition] as the entry keeps it. *)
Definition ofResolved (r : option JS.value) : posval :=
  match r with
  | Some (JS.Num n) => PNumber n
  | Some JS.Obj => PObject
  | None => PUndefined
  end.

Definition add (options : AnimationOptions.t) (position : posval)
    (tl : Timeline) : Timeline :=
  let resolvedPosition := resolvePosition position tl in
  let entry := {| options := options; position := ofResolved resolvedPosition |} in
  calculateDuration (set_animations (animations tl ++ [entry])%list tl).

Definition addLabel (label : string) (position : posval) (tl : Timeline) : Timeline :=
  match position with
  | PNumber n => set_labels (setLabel label (n * JS.Fin 1000) (labels tl)) tl
  | _ => set_labels (setLabel label (duration tl) (labels tl)) tl
  end.

Definition call (c : option Callback) : list event :=
  match c with
  | Some f => [Call f]
  | None => []
  end.

Definition pause (tl : Timeline) : Timeline * list event :=
  let tl := set_isPlayingInternal false tl in
  let tl := set_isPausedInternal true tl in
  match animationFrameId tl with
  | Some id => (set_animationFrameId None tl, [CancelAnimFrame id])
  | None => (tl, [])
  end.

(** [play(from?)].  [now] is what [performance.now()] returns and [id]
    the handle that [requestAnimFrame] returns. *)
Definition play (from : posval) (now : num) (id : nat) (tl : Timeline)
    : Timeline * list event :=
  if isPlaying tl then (tl, [])
  else
    let tl := set_isPlayingInternal true tl in
    let tl := set_isPausedInternal false tl in
    let tl := set_playDirection forward tl in
    let tl :=
      match from with
      | PUndefined =>
          let tl :=
            if negb (isPlaying tl) && (currentTime tl >=? duration tl)
            then set_currentTime (JS.Fin 0) tl
            else tl in
          set_startTime (Some (now - currentTime tl)) tl
      | _ =>
          let tl := set_startTime None tl in
          let tl := set_repeatCount (JS.Fin 0) tl in
          match from with
          | PNumber n => set_currentTime (n * JS.Fin 1000) tl
          | PString s =>
              match getLabel (labels tl) s with
              | Some t => set_currentTime t tl
              | None => set_currentTime (JS.Fin 0) tl
              end
          | _ => set_currentTime (JS.Fin 0) tl
          end
      end in
    (set_animationFrameId (Some id) tl, [RequestAnimFrame id]).

Definition reverse (now : num) (id : nat) (tl : Timeline)
    : Timeline * list event :=
  let tl := set_playDirection backward tl in
  if negb (isPlaying tl) then
    let tl := set_isPlayingInternal true tl in
    let tl := set_isPausedInternal false tl in
    let tl :=
      if currentTime tl >=? duration tl
      then set_currentTime (duration tl) tl
      else tl in
    let tl := set_startTime (Some (now - (duration tl - currentTime tl))) tl in
    (set_animationFrameId (Some id) tl, [RequestAnimFrame id])
  else
    (set_startTime (Some (now - (duration tl - currentTime tl))) tl, []).

(** [calculateCurrentTime(time)].  [this.startTime!] is a number when
    [runAnimations] calls the method; a [null] would count as 0. *)
Definition calculateCurrentTime (time : num) (tl : Timeline) : Timeline :=
  let elapsedTime := time - JS.nullish (startTime tl) (JS.Fin 0) in
  let currentEffectiveTime :=
    if negb (JS.eqb (repeat tl) (JS.Fin 0)) then
      let cycleDuration := duration tl + repeatDelay tl * JS.Fin 1000 in
      let cycleTime := elapsedTime %% cycleDuration in
      if shouldYoyo tl then
        let cycleNumber := JS.floor (elapsedTime / cycleDuration) in
        if JS.eqb (cycleNumber %% JS.Fin 2) (JS.Fin 1)
        then cycleDuration - cycleTime
        else cycleTime
      else cycleTime
    else elapsedTime in
  set_currentTime
    (match playDirection tl with
     | forward => currentEffectiveTime
     | backward => JS.max (JS.Fin 0) (duration tl - currentEffectiveTime)
     end) tl.

Definition resolveAnimationStartTime (animation : Animation) : num :=
  match position animation with
  | PNumber n => n
  | _ => JS.Fin 0
  end.

(** [for (const animation of l)], the body also given the index of the
    entry; the events of the turns, in order. *)
Fixpoint forEachFrom (i : nat) (body : nat -> Animation -> list event)
    (l : list Animation) : list event :=
  match l with
  | [] => []
  | animation :: rest => (body i animation ++ forEachFrom (S i) body rest)%list
  end.

(** [f && f(x)] for the [onChange] of an entry. *)
Definition callOnChange (i : nat) (animation : Animation) (x : num) : list event :=
  match AnimationOptions.onChange (options animation) with
  | Some _ => [OnChange i x]
  | None => []
  end.

(** The body of the loop of [processAnimations]. *)
Definition processAnimation (tl : Timeline) (i : nat) (animation : Animation)
    : list event :=
  let animationStart := resolveAnimationStartTime animation in
  let animationEnd :=
    animationStart
    + JS.falsy_or (AnimationOptions.duration (options animation)) (JS.Fin 0) in
  if (currentTime tl >=? animationStart) && (currentTime tl <=? animationEnd)
  then
    let animationElapsedTime :=
      JS.max (JS.Fin 0) (currentTime tl - animationStart) in
    callOnChange i animation animationElapsedTime
  else [].

Definition processAnimations (tl : Timeline) : list event :=
  forEachFrom 0 (processAnimation tl) (animations tl).

Definition handleTimelineUpdate (tl : Timeline) : list event :=
  call (onUpdateCallback tl).

Definition shouldRepeat (tl : Timeline) : bool :=
  (repeatCount tl <? repeat tl) || JS.eqb (repeat tl) (JS.Fin (-1)).

Definition handleRepeatForward (time totalDuration : num) (tl : Timeline)
    : Timeline * list event :=
  let tl := set_repeatCount (repeatCount tl + JS.Fin 1) tl in
  let tl := if shouldYoyo tl then set_playDirection backward tl else tl in
  (set_startTime (Some (time - (currentTime tl - totalDuration))) tl,
   call (onRepeatCallback tl)).

(** [time + this.currentTime] adds two numbers: the method runs in a
    frame, after [calculateCurrentTime] has assigned [currentTime]. *)
Definition handleRepeatBackward (time : num) (tl : Timeline)
    : Timeline * list event :=
  let tl := set_repeatCount (repeatCount tl + JS.Fin 1) tl in
  let tl := set_playDirection forward tl in
  (set_startTime (Some (time + currentTime tl)) tl,
   call (onRepeatCallback tl)).

Definition handleTimelineCompletion (time : num) (tl : Timeline)
    : Timeline * list event :=
  match playDirection tl with
  | forward =>
      let totalDuration := duration tl + repeatDelay tl * JS.Fin 1000 in
      if currentTime tl >=? totalDuration then
        if shouldRepeat tl then handleRepeatForward time totalDuration tl
        else
          let '(tl, es) := pause tl in
          (tl, (es ++ call (onCompleteCallback tl))%list)
      else (tl, [])
  | backward =>
      if currentTime tl <=? JS.Fin 0 then
        if shouldRepeat tl then handleRepeatBackward time tl
        else
          let '(tl, es) := pause tl in
          (tl, (es ++ call (onReverseCompleteCallback tl))%list)
      else (tl, [])
  end.

Definition requestNextFrame (id : nat) (tl : Timeline) : Timeline * list event :=
  if isPlaying tl
  then (set_animationFrameId (Some id) tl, [RequestAnimFrame id])
  else (tl, []).

(** One frame: [time] is the timestamp of the frame, [id] the handle that
    [requestAnimFrame] returns if the next frame is requested. *)
Definition runAnimations (time : num) (id : nat) (tl : Timeline)
    : Timeline * list event :=
  let tl :=
    match startTime tl with
    | Some s => if JS.truthy s then tl else set_startTime (Some time) tl
    | None => set_startTime (Some time) tl
    end in
  let tl := calculateCurrentTime time tl in
  let es1 := processAnimations tl in
  let es2 := handleTimelineUpdate tl in
  let '(tl, es3) := handleTimelineCompletion time tl in
  let '(tl, es4) := requestNextFrame id tl in
  (tl, (es1 ++ es2 ++ es3 ++ es4)%list).

(** The start that [seek] computes for an entry. *)
Definition seekStart (tl : Timeline) (animation : Animation) : num :=
  let animationStart : num :=
    match position animation with
    | PUndefined => JS.Fin 0
    | PNumber n => n
    | PString s =>
        match getLabel (labels tl) s with
        | Some t => t
        | None => JS.Fin 0
        end
    | PObject => JS.Fin 0
    end in
  match position animation with
  | PNumber _ => animationStart
  | _ => animationStart * JS.Fin 1000
  end.

(** The argument that [seek] passes to the [onChange] of an entry. *)
Definition seekValue (tl : Timeline) (animation : Animation) : num :=
  let animationStart := seekStart tl animation in
  let entryDuration :=
    JS.nullish (AnimationOptions.duration (options animation)) (JS.Fin 0) in
  let animationEnd := animationStart + entryDuration in
  if (currentTime tl >=? animationStart) && (currentTime tl <=? animationEnd)
  then JS.max (JS.Fin 0) (currentTime tl - animationStart)
  else if currentTime tl <? animationStart then JS.Fin 0
  else entryDuration.

Definition seekAnimation (tl : Timeline) (i : nat) (animation : Animation)
    : list event :=
  callOnChange i animation (seekValue tl animation).

Definition seek (time : num) (tl : Timeline) : Timeline * list event :=
  let tl := set_currentTime (time * JS.Fin 1000) tl in
  (tl, forEachFrom 0 (seekAnimation tl) (animations tl)).

Definition progress (value : num) (tl : Timeline) : Timeline * list event :=
  if (value <? JS.Fin 0) || (value >? JS.Fin 1)
  then (tl, [Warn "Progress value should be between 0 and 1"])
  else seek ((duration tl * value) / JS.Fin 1000) tl.

Definition togglePlayPause (now : num) (id : nat) (tl : Timeline)
    : Timeline * list event :=
  if isPlaying tl then pause tl
  else
    match playDirection tl with
    | forward => play PUndefined now id tl
    | backward => reverse now id tl
    end.

(** *** The tween builder *)

(** [undefined] read as a number. *)
Definition toNumber (v : option num) : num :=
  match v with
  | Some n => n
  | None => JS.NaN
  end.

(** What the loop of [to] stores in [endValues] for one property whose
    start value is [start]; [None] when it stores nothing. *)
Definition endValueOf (start : option num) (propertyValue : jsval) : option jsval :=
  match propertyValue with
  | VString s =>
      match Text.matchRelativeValue s with
      | Some (operator, g) =>
          let relativeValue := Text.parseFloat g in
          if String.eqb operator "+=" then
            Some (VNumber (toNumber start + relativeValue))
          else if String.eqb operator "-=" then
            Some (VNumber (toNumber start - relativeValue))
          else None
      | None => Some (VNumber (Text.parseFloat s))
      end
  | v => Some v
  end.

(** [o[key]] on an object given as the list of its entries. *)
Fixpoint getProperty {A} (key : string) (o : list (string * option A)) : option A :=
  match o with
  | [] => None
  | (k, v) :: rest => if String.eqb k key then v else getProperty key rest
  end.

Section Builder.

(** [fabric.util.ease.defaultEasing], of the host library. *)
Variable defaultEasing : Easing.

(** [to(object, properties, duration, position?, easing?)].  [properties]
    lists the own properties of the argument in the order of [for..in]
    (the keys of an object are distinct); [store] is the state of the
    host's objects when the method is called. *)
Definition to (store : gmap nat (gmap string JS.num)) (object : objref)
    (properties : list (string * jsval)) (duration : num)
    (position : posval) (easing : option Easing) (tl : Timeline) : Timeline :=
  let target : gmap string JS.num := store !!! object in
  let startValues := map (fun kv => (fst kv, target !! fst kv)) properties in
  let endValues :=
    omap (fun kv => pair (fst kv) <$> endValueOf (target !! fst kv) (snd kv))
         properties in
  let animationOptions :=
    {| AnimationOptions.duration := Some (duration * JS.Fin 1000);
       AnimationOptions.easing := Some (default defaultEasing easing);
       AnimationOptions.startValue := None;
       AnimationOptions.endValue := None;
       AnimationOptions.onChange :=
         Some {| Timeline.object := object; startValues := startValues;
                 endValues := endValues |};
       AnimationOptions.onComplete := Some Noop |} in
  add animationOptions position tl.

End Builder.

(** The body of the closure [animationOptions.onChange] of [to], called
    with [currentTime]: the calls [object.set({[key]: currentValue})] it
    makes, in order.  [None] is the exception of calling an [easing] that
    is [undefined].  The request to render that follows has no effect on
    the timeline or the object and is left out. *)
Definition onChangeWrites (o : AnimationOptions.t) (tw : Tween)
    (currentTime : num) : option (list (string * num)) :=
  match AnimationOptions.easing o with
  | Some ease =>
      Some (omap (fun kv =>
              match getProperty (fst kv) (startValues tw), asNumber (snd kv) with
              | Some startVal, Some endVal =>
                  Some (fst kv,
                        ease currentTime startVal (endVal - startVal)
                          (JS.falsy_or (AnimationOptions.duration o) (JS.Fin 0)))
              | _, _ => None
              end) (endValues tw))
  | None => None
  end.

(** [object.set({[key]: value})] on the store. *)
Definition setProperty (object : objref) (kv : string * num)
    (store : gmap nat (gmap string JS.num)) : gmap nat (gmap string JS.num) :=
  <[object := <[fst kv := snd kv]> (store !!! object)]> store.

(** The effect on the store of one event of the timeline: an [OnChange]
    runs the closure of the entry, the other events leave the objects
    alone. *)
Definition deliver (tl : Timeline) (store : gmap nat (gmap string JS.num))
    (e : event) : gmap nat (gmap string JS.num) :=
  match e with
  | OnChange i x =>
      match animations tl !! i with
      | Some animation =>
          match AnimationOptions.onChange (options animation) with
          | Some tw =>
              match onChangeWrites (options animation) tw x with
              | Some ws => fold_left (fun st kv => setProperty (object tw) kv st) ws store
              | None => store
              end
          | None => store
          end
      | None => store
      end
  | _ => store
  end.

Definition deliverAll (tl : Timeline) (es : list event)
    (store : gmap nat (gmap string JS.num)) : gmap nat (gmap string JS.num) :=
  fold_left (deliver tl) es store.


(** The calls [object.set] made when the [onChange] of entry [i] is called
    with [x]; [None] when there is no such closure or when it throws. *)
Definition writesOf (tl : Timeline) (i : nat) (x : num) : option (list (string * num)) :=
  animation ← animations tl !! i;
  tw ← AnimationOptions.onChange (options animation);
  onChangeWrites (options animation) tw x.

(** *** Programs over a timeline *)

(** A call of a public method, or a frame delivered by the host. *)
Inductive action : Type :=
| DoTo (store : gmap nat (gmap string JS.num)) (object : objref)
       (properties : list (string * jsval)) (duration : num)
       (position : posval) (easing : option Easing)
| DoAddLabel (label : string) (position : posval)
| DoPlay (from : posval) (now : num) (id : nat)
| DoPause
| DoReverse (now : num) (id : nat)
| DoTogglePlayPause (now : num) (id : nat)
| DoSeek (time : num)
| DoProgress (value : num)
| DoYoyo (value : bool)
| DoFrame (time : num) (id : nat).

Definition perform (defaultEasing : Easing) (tl : Timeline) (a : action) : Timeline :=
  match a with
  | DoTo store object properties duration position easing =>
      to defaultEasing store object properties duration position easing tl
  | DoAddLabel label position => addLabel label position tl
  | DoPlay from now id => fst (play from now id tl)
  | DoPause => fst (pause tl)
  | DoReverse now id => fst (reverse now id tl)
  | DoTogglePlayPause now id => fst (togglePlayPause now id tl)
  | DoSeek time => fst (seek time tl)
  | DoProgress value => fst (progress value tl)
  | DoYoyo value => set_shouldYoyo value tl
  | DoFrame time id => fst (runAnimations time id tl)
  end.

(** The timeline built by [new Timeline(o)] and then driven by [actions]. *)
Definition run (defaultEasing : Easing) (o : TimelineOptions.t)
    (actions : list action) : Timeline :=
  fold_left (perform defaultEasing) actions (new o).

(** One call [to(object, properties, seconds, undefined, easing)]. *)
Record tween : Type := {
  tweenStore : gmap nat (gmap string JS.num);
  tweenObject : objref;
  tweenProperties : list (string * jsval);
  tweenSeconds : Q;
  tweenEasing : option Easing
}.

Definition chainTo (defaultEasing : Easing) (tl : Timeline) (c : tween) : Timeline :=
  to defaultEasing (tweenStore c) (tweenObject c) (tweenProperties c)
     (JS.Fin (tweenSeconds c)) PUndefined (tweenEasing c) tl.

(** ** The specification's formulas *)

(** The sum of the durations of a chain, in milliseconds. *)
Definition sumOfDurations (cs : list tween) : Q :=
  fold_right (fun c acc => tweenSeconds c * 1000 + acc)%Q 0%Q cs.

(** Modelled on the words of the specification: the folding rule of
    repeat and yoyo.  [cycleDuration = duration + repeatDelay*1000];
    [cycleTime] is [elapsed] modulo [cycleDuration]; on an odd cycle index
    [floor(elapsed / cycleDuration)] with yoyo on it becomes
    [cycleDuration - cycleTime]; the playhead is [cycleTime] forward and
    [duration - cycleTime], floored at 0, backward. *)
Definition foldedTime (duration repeatDelay elapsed : Q) (yoyo : bool)
    (d : direction) : Q :=
  let cycleDuration := (duration + repeatDelay * 1000)%Q in
  let cycleIndex := Qfloor (elapsed / cycleDuration) in
  let cycleTime := (elapsed - inject_Z cycleIndex * cycleDuration)%Q in
  let cycleTime :=
    if yoyo && Z.odd cycleIndex then (cycleDuration - cycleTime)%Q else cycleTime in
  match d with
  | forward => cycleTime
  | backward => Qmax 0 (duration - cycleTime)
  end.

(** The playhead without folding. *)
Definition unfoldedTime (duration elapsed : Q) (d : direction) : Q :=
  match d with
  | forward => elapsed
  | backward => Qmax 0 (duration - elapsed)
  end.

(** The events of [es] that are calls of the [onChange] of entry [i]. *)
Definition callsOf (i : nat) (es : list event) : list event :=
  List.filter (fun e => match e with
                        | OnChange j _ => Nat.eqb j i
                        | _ => false
                        end) es.

Definition isOnChange (e : event) : bool :=
  match e with
  | OnChange _ _ => true
  | _ => false
  end.

(** No entry of [l] has a string as its position. *)
Definition noStringPosition (l : list Animation) : Prop :=
  Forall (fun a => isString (position a) = false) l.

(** What a chain of tweens without position leaves behind: the duration is
    the scan of the entries and the sum [D] of the durations, the next
    sequential position is that sum too, and entry [i] starts at the sum
    of the durations before it. *)
Record chained (cs : list tween) (tl : Timeline) : Prop := {
  chained_scan : duration tl = scanDuration (animations tl);
  chained_duration :
    exists D, duration tl = JS.Fin D /\ (D == sumOfDurations cs)%Q;
  chained_next :
    exists E, resolvePosition PUndefined tl = Some (JS.Num (JS.Fin E))
              /\ (E == sumOfDurations cs)%Q;
  chained_length : length (animations tl) = length cs;
  chained_entries :
    forall i a, animations tl !! i = Some a ->
      exists p q,
        position a = PNumber (JS.Fin p) /\
        AnimationOptions.duration (options a) = Some (JS.Fin q) /\
        (p == sumOfDurations (take i cs))%Q /\
        (p + q == sumOfDurations (take (S i) cs))%Q
}.

(** ** Predicates of the playback state *)

(** The flags of the playback state agree: a frame is pending exactly
    when the timeline is playing, and a playing timeline is not paused. *)
Definition coherent (tl : Timeline) : Prop :=
  (isPlaying tl = true <-> is_Some (animationFrameId tl)) /\
  (isPlaying tl = true -> isPaused tl = false).

(** What playback leaves alone: the entries, the labels, the duration and
    the configuration of the constructor. *)
Definition sameSchedule (tl tl' : Timeline) : Prop :=
  animations tl' = animations tl /\
  labels tl' = labels tl /\
  duration tl' = duration tl /\
  repeat tl' = repeat tl /\
  repeatDelay tl' = repeatDelay tl /\
  onCompleteCallback tl' = onCompleteCallback tl /\
  onUpdateCallback tl' = onUpdateCallback tl /\
  onRepeatCallback tl' = onRepeatCallback tl /\
  onReverseCompleteCallback tl' = onReverseCompleteCallback tl.

(** The actions that build the schedule, as opposed to playback. *)
Definition isBuilder (a : action) : bool :=
  match a with
  | DoTo _ _ _ _ _ _ | DoAddLabel _ _ => true
  | _ => false
  end.

Definition isRequest (e : event) : bool :=
  match e with
  | RequestAnimFrame _ => true
  | _ => false
  end.

Definition isCall (e : event) : bool :=
  match e with
  | Call _ => true
  | _ => false
  end.

(** The calls [object.set] that the events [es] of the timeline [tl]
    cause, in order, each with the object it is made on. *)
Definition storeWrites (tl : Timeline) (es : list event)
    : list (nat * (string * num)) :=
  flat_map (fun e =>
    match e with
    | OnChange i x =>
        match animations tl !! i with
        | Some animation =>
            match AnimationOptions.onChange (options animation) with
            | Some tw =>
                match onChangeWrites (options animation) tw x with
                | Some ws => map (pair (object tw)) ws
                | None => []
                end
            | None => []
            end
        | None => []
        end
    | _ => []
    end) es.

Definition applyWrites (ws : list (nat * (string * num)))
    (store : gmap nat (gmap string JS.num)) : gmap nat (gmap string JS.num) :=
  fold_left (fun st w => setProperty (fst w) (snd w) st) ws store.

(** A token that does not start like a relative position: its first
    character is none of [<], [>], [+] and [-]. *)
Definition plainName (s : string) : bool :=
  match s with
  | EmptyString => true
  | String c _ =>
      negb (Ascii.eqb c "<" || Ascii.eqb c ">" || Ascii.eqb c "+" || Ascii.eqb c "-")
  end.

(** An entry placed at the number [p] that lasts the number [d]. *)
Definition timed (a : Animation) (p d : Q) : Prop :=
  position a = PNumber (JS.Fin p) /\
  AnimationOptions.duration (options a) = Some (JS.Fin d).

(** The repeat counter is a whole number between 0 and [R]. *)
Definition withinBudget (R : Z) (tl : Timeline) : Prop :=
  exists k : Z, repeatCount tl ==n JS.Fin (inject_Z k) /\ (0 <= k <= R)%Z.

(** Strings of decimal digits. *)
Fixpoint allDigits (s : string) : bool :=
  match s with
  | EmptyString => true
  | String c r => Text.isDigit c && allDigits r
  end.

Definition startsWithDigit (s : string) : bool :=
  match s with
  | String c _ => Text.isDigit c
  | EmptyString => false
  end.

(** The text that the sub-pattern [[-+]?\d*\.?\d+] can capture: an
    optional sign, digits, and either nothing more (with one digit at
    least) or a dot and one digit at least. *)
Inductive numeral : string -> Prop :=
| numeral_whole (sign ds : string) :
    sign = "" \/ sign = "-" \/ sign = "+" ->
    allDigits ds = true -> Text.nonEmpty ds = true ->
    numeral (sign ++ ds)
| numeral_fraction (sign ds fs : string) :
    sign = "" \/ sign = "-" \/ sign = "+" ->
    allDigits ds = true -> allDigits fs = true -> Text.nonEmpty fs = true ->
    numeral (sign ++ ds ++ "." ++ fs).

(** The start and the duration of the last entry as [add] reads them, 0
    when there is no entry. *)
Definition previousStart (tl : Timeline) : num :=
  match list.last (animations tl) with
  | Some p =>
      match position p with
      | PNumber n => n
      | _ => JS.Fin 0
      end
  | None => JS.Fin 0
  end.

Definition previousDuration (tl : Timeline) : num :=
  match list.last (animations tl) with
  | Some p => JS.nullish (AnimationOptions.duration (options p)) (JS.Fin 0)
  | None => JS.Fin 0
  end.

(** The entry whose [onChange] an event calls. *)
Definition entryOf (e : event) : option nat :=
  match e with
  | OnChange i _ => Some i
  | _ => None
  end.

(** The entries called by the events, in order. *)
Definition entriesOf (es : list event) : list nat := omap entryOf es.

(** The numbers of [l] increase and lie in [[k, n)]. *)
Fixpoint increasingFrom (k n : nat) (l : list nat) : Prop :=
  match l with
  | [] => True
  | i :: rest => (k <= i < n)%nat /\ increasingFrom (S i) n rest
  end.


(** ** Sample objects and timelines *)

Module Sample.

(** Linear interpolation, [(t, b, c, d) => b + c * t / d]. *)
Definition linear : Easing := fun t b c d => b + c * t / d.

(** A rectangle at [left = 10], [top = 0], the only object of its store. *)
Definition rect : objref := 7%nat.
Definition store : gmap nat (gmap string JS.num) :=
  {[ rect := <["left" := JS.Fin 10]> {[ "top" := JS.Fin 0 ]} ]}.

Definition fresh : Timeline := new TimelineOptions.empty.

(** [tl.to(rect, {left: 100}, seconds)]. *)
Definition moveLeft (seconds : Q) (position : posval) (tl : Timeline) : Timeline :=
  to linear store rect [("left", VNumber (JS.Fin 100))] (JS.Fin seconds)
     position None tl.

(** [tl.to(rect, {top: 50}, seconds, position)]. *)
Definition moveTop (seconds : Q) (position : posval) (tl : Timeline) : Timeline :=
  to linear store rect [("top", VNumber (JS.Fin 50))] (JS.Fin seconds)
     position None tl.

(** A timeline of two seconds, then an entry placed at ['-=0.5']. *)
Definition twoSeconds : Timeline := moveLeft 2 PUndefined fresh.
Definition halfSecondBack : Timeline := moveTop 1 (PString "-=0.5") twoSeconds.

(** A timeline of one second that [seek(1)] has brought to its end. *)
Definition finished : Timeline := fst (seek (JS.Fin 1) (moveLeft 1 PUndefined fresh)).

(** [tl.to(rect, {left: 'abc'}, 1)]. *)
Definition wordTween : Timeline :=
  to linear store rect [("left", VString "abc")] (JS.Fin 1) PUndefined None fresh.

(** One second of animation, a label at 0, an entry placed at the label. *)
Definition labelAtZero : Timeline :=
  addLabel "start" (PNumber (JS.Fin 0)) (moveLeft 1 PUndefined fresh).
Definition atLabelZero : Timeline := moveTop 1 (PString "start") labelAtZero.

(** The same with the label at one half second. *)
Definition labelAtHalf : Timeline :=
  addLabel "mid" (PNumber (JS.Fin (1 # 2))) (moveLeft 1 PUndefined fresh).
Definition atLabelHalf : Timeline := moveTop 1 (PString "mid") labelAtHalf.

(** An entry placed at a label that does not exist. *)
Definition atMissingLabel : Timeline :=
  moveTop 1 (PString "nowhere") (moveLeft 1 PUndefined fresh).

(** An entry with an undefined position and a duration of 1000 ms, and a
    timeline whose playhead is at 500 ms. *)
Definition orphan : Animation :=
  {| options :=
       {| AnimationOptions.duration := Some (JS.Fin 1000);
          AnimationOptions.easing := Some linear;
          AnimationOptions.endValue := None;
          AnimationOptions.onChange :=
            Some {| object := rect; startValues := [("top", Some (JS.Fin 0))];
                    endValues := [("top", VNumber (JS.Fin 50))] |};
          AnimationOptions.onComplete := Some Noop;
          AnimationOptions.startValue := None |};
     position := PUndefined |}.
Definition atHalfSecond : Timeline := set_currentTime (JS.Fin 500) twoSeconds.

(** [tl.to(rect, {left: 100}, 1).to(rect, {top: 50}, 1)]. *)
Definition twoInSequence : Timeline :=
  moveTop 1 PUndefined (moveLeft 1 PUndefined fresh).

(** [tl.to(rect, {left: '+=50'}, 1)]. *)
Definition relativeTween : Timeline :=
  to linear store rect [("left", VString "+=50")] (JS.Fin 1) PUndefined None fresh.

(** [addLabel('mid')] after two seconds of entries, then an entry at
    ['mid']. *)
Definition labelAtEnd : Timeline := addLabel "mid" PUndefined twoInSequence.
Definition atLabelEnd : Timeline := moveLeft 1 (PString "mid") labelAtEnd.

(** Two tweens without position, of one second and of half a second. *)
Definition chain : list tween :=
  [ {| tweenStore := store; tweenObject := rect;
       tweenProperties := [("left", VNumber (JS.Fin 100))];
       tweenSeconds := 1; tweenEasing := None |};
    {| tweenStore := store; tweenObject := rect;
       tweenProperties := [("top", VString "+=50")];
       tweenSeconds := 1 # 2; tweenEasing := Some linear |} ].

(** A timeline of one second with [repeat: 2] and no yoyo, playing since
    the time 100. *)
Definition repeatTwice : Timeline :=
  fst (play PUndefined (JS.Fin 100) 1
         (moveLeft 1 PUndefined
            (new {| TimelineOptions.onComplete := Some (Host 1);
                    TimelineOptions.onUpdate := Some (Host 2);
                    TimelineOptions.onRepeat := Some (Host 3);
                    TimelineOptions.onReverseComplete := None;
                    TimelineOptions.repeat := Some (JS.Fin 2);
                    TimelineOptions.repeatDelay := None;
                    TimelineOptions.yoyo := None |}))).

(** A timeline of one second without repeat, with callbacks, playing since
    the time 100. *)
Definition playingOnce : Timeline :=
  fst (play PUndefined (JS.Fin 100) 1
         (moveLeft 1 PUndefined
            (new {| TimelineOptions.onComplete := Some (Host 1);
                    TimelineOptions.onUpdate := Some (Host 2);
                    TimelineOptions.onRepeat := Some (Host 3);
                    TimelineOptions.onReverseComplete := Some (Host 4);
                    TimelineOptions.repeat := None;
                    TimelineOptions.repeatDelay := None;
                    TimelineOptions.yoyo := None |}))).

(** A timeline of two seconds that [seek(0.5)] has put at 500 ms. *)
Definition soughtHalf : Timeline := fst (seek (JS.Fin (1 # 2)) twoSeconds).

(** The options [{repeat: 2, yoyo: true}]. *)
Definition twiceOptions : TimelineOptions.t :=
  {| TimelineOptions.onComplete := None;
     TimelineOptions.onUpdate := None;
     TimelineOptions.onRepeat := None;
     TimelineOptions.onReverseComplete := None;
     TimelineOptions.repeat := Some (JS.Fin 2);
     TimelineOptions.repeatDelay := None;
     TimelineOptions.yoyo := Some true |}.

(** The timeline [playingOnce] brought to its end and reversed at the time
    5000. *)
Definition reversing : Timeline :=
  fst (reverse (JS.Fin 5000) 3 (fst (runAnimations (JS.Fin 1200) 2 playingOnce))).

(** A timeline of one second with [repeat: 2, yoyo: true], playing since
    the time 100. *)
Definition yoyoPlaying : Timeline :=
  fst (play PUndefined (JS.Fin 100) 1 (moveLeft 1 PUndefined (new twiceOptions))).

(** One second of animation, then an entry placed at ['constructor'], a
    name that no [addLabel] has defined. *)
Definition atConstructor : Timeline :=
  moveTop 1 (PString "constructor") (moveLeft 1 PUndefined fresh).


(** The timeline [repeatTwice] reversed at the time 700. *)
Definition repeatTwiceBackward : Timeline := fst (reverse (JS.Fin 700) 5 repeatTwice).

End Sample.

End Timeline.

Import Timeline.
Local Open Scope string_scope.
Local Open Scope list_scope.

(** * Properties *)

(** ** The string functions on examples *)

Example Number_half : Text.Number "0.5" ==n JS.Fin (1 # 2).
Proof. vm_compute. reflexivity. Qed.
Example Number_signed : Text.Number "-.25e1" ==n JS.Fin (-5 # 2).
Proof. vm_compute. reflexivity. Qed.
Example Number_blank : Text.Number "" = JS.Fin 0.
Proof. reflexivity. Qed.
Example Number_word : Text.Number "abc" = JS.NaN.
Proof. reflexivity. Qed.
Example Number_trailing : Text.Number "12px" = JS.NaN.
Proof. reflexivity. Qed.
Example Number_hexadecimal : Text.Number " 0x1F " ==n JS.Fin 31.
Proof. vm_compute. reflexivity. Qed.
Example Number_binary : Text.Number "0b102" = JS.NaN /\ Text.Number "0b" = JS.NaN.
Proof. split; reflexivity. Qed.
Example Number_signed_hexadecimal : Text.Number "-0x10" = JS.NaN.
Proof. reflexivity. Qed.
Example parseFloat_prefix : Text.parseFloat " 12.5px" ==n JS.Fin (25 # 2).
Proof. vm_compute. reflexivity. Qed.
Example parseFloat_word : Text.parseFloat "abc" = JS.NaN.
Proof. reflexivity. Qed.
Example matchRelativePosition_after :
  Text.matchRelativePosition "<0.5" = Some ("<"%char, false, "0.5"%string).
Proof. reflexivity. Qed.
Example matchRelativePosition_dot :
  Text.matchRelativePosition ">=12.x" = Some (">"%char, true, "12"%string).
Proof. reflexivity. Qed.
Example matchRelativePosition_label :
  Text.matchRelativePosition "intro" = None.
Proof. reflexivity. Qed.
Example matchRelativeValue_plus :
  Text.matchRelativeValue "+=50" = Some ("+="%string, "50"%string).
Proof. reflexivity. Qed.
Example matchRelativeValue_tail : Text.matchRelativeValue "+=50px" = None.
Proof. reflexivity. Qed.


(** ** Comparisons of rationals *)

Lemma Qle_bool_true (x y : Q) : Qle_bool x y = true <-> (x <= y)%Q.
Proof. apply Qle_bool_iff. Qed.

Lemma Qle_bool_false (x y : Q) : Qle_bool x y = false <-> (y < x)%Q.
Proof.
  split; intros H.
  - apply Qnot_le_lt. intros Hle. apply Qle_bool_iff in Hle. congruence.
  - destruct (Qle_bool x y) eqn:E; [| reflexivity].
    apply Qle_bool_iff in E. exfalso. apply (Qlt_not_le _ _ H E).
Qed.

Lemma Qeq_bool_false (x y : Q) : Qeq_bool x y = false <-> ~ (x == y)%Q.
Proof.
  split; intros H.
  - intros Heq. apply Qeq_bool_iff in Heq. congruence.
  - destruct (Qeq_bool x y) eqn:E; [| reflexivity].
    apply Qeq_bool_iff in E. contradiction.
Qed.

(** Case analysis on a comparison, with the order it decides. *)
Ltac case_Qle x y :=
  let E := fresh "E" in
  destruct (Qle_bool x y) eqn:E;
  [apply Qle_bool_true in E | apply Qle_bool_false in E].

Ltac case_Qeq x y :=
  let E := fresh "E" in
  destruct (Qeq_bool x y) eqn:E;
  [apply Qeq_bool_iff in E | apply Qeq_bool_false in E].

(** Splits on every comparison of rationals that the goal tests. *)
Ltac split_comparisons :=
  repeat (match goal with
          | |- context [Qle_bool ?x ?y] => case_Qle x y
          | |- context [Qeq_bool ?x ?y] => case_Qeq x y
          end; simpl).

(** ** Position resolution *)

(** Whatever follows ['-='], the token takes the branch of the operators
    and the offset is added to the duration before the floor at 0. *)
Lemma resolvePosition_minus_equals (s : string) (tl : Timeline) :
  resolvePosition (PString ("-=" ++ s)%string) tl
  = Some (JS.Num (JS.max (JS.Fin 0) (duration tl + Text.Number s * JS.Fin 1000)%num)).
Proof. reflexivity. Qed.

Lemma resolvePosition_plus_equals (s : string) (tl : Timeline) :
  resolvePosition (PString ("+=" ++ s)%string) tl
  = Some (JS.Num (duration tl + Text.Number s * JS.Fin 1000)%num).
Proof. reflexivity. Qed.

Lemma animations_add (o : AnimationOptions.t) (p : posval) (tl : Timeline) :
  animations (add o p tl)
  = animations tl
    ++ [{| options := o; position := ofResolved (resolvePosition p tl) |}].
Proof. reflexivity. Qed.

Lemma duration_add (o : AnimationOptions.t) (p : posval) (tl : Timeline) :
  duration (add o p tl) = scanDuration (animations (add o p tl)).
Proof. reflexivity. Qed.

(** C1 (the code departs from the claim).  On a timeline of 2000 ms the
    entry added at ['-=0.5'] is stored at 2500 ms: the offset is added to
    the duration, where the claim has [max(0, duration - N*1000)], that is
    1500 ms. *)
Theorem minus_equals_offset_is_added :
  duration Sample.twoSeconds ==n JS.Fin 2000 /\
  exists p,
    position <$> list.last (animations Sample.halfSecondBack) = Some (PNumber p) /\
    p ==n JS.Fin 2500 /\
    ~ p ==n JS.max (JS.Fin 0)
              (duration Sample.twoSeconds - Text.Number "0.5" * JS.Fin 1000)%num.
Proof.
  split; [vm_compute; reflexivity |].
  eexists. split; [vm_compute; reflexivity |].
  split; [vm_compute; reflexivity |].
  intros H. vm_compute in H. discriminate H.
Qed.

(** For every positive offset [n] and every non-negative duration [d] the
    entry added at ['-=' ++ s], where [s] reads as [n], is stored at
    [d + n * 1000], which is not [max(0, d - n * 1000)]. *)
Lemma minus_equals_never_subtracts (s : string) (n d : Q) (tl : Timeline) :
  Text.Number s = JS.Fin n -> (0 < n)%Q ->
  duration tl = JS.Fin d -> (0 <= d)%Q ->
  exists p,
    resolvePosition (PString ("-=" ++ s)%string) tl = Some p /\
    p ==n JS.Fin (d + n * 1000) /\
    ~ p ==n JS.max (JS.Fin 0) (duration tl - Text.Number s * JS.Fin 1000)%num.
Proof.
  intros Hn Hpos Hd Hd0. rewrite resolvePosition_minus_equals, Hn, Hd.
  eexists. split; [reflexivity |]. simpl.
  split_comparisons; try lra; split; try reflexivity; intros H; lra.
Qed.

(** ** Playback *)

(** C2 (the code departs from the claim).  [play()] without an argument
    never moves the playhead: the guard of the reset reads [isPlaying]
    after the method has set it, so the reset to 0 of a finished timeline
    is never taken, and the loop is anchored at the old [currentTime]. *)
Theorem play_resume_keeps_currentTime (now : num) (id : nat) (tl : Timeline) :
  currentTime (fst (play PUndefined now id tl)) = currentTime tl.
Proof.
  unfold play. destruct (isPlaying tl) eqn:E; reflexivity.
Qed.

Lemma play_resume_anchor (now : num) (id : nat) (tl : Timeline) :
  isPlaying tl = false ->
  startTime (fst (play PUndefined now id tl)) = Some (now - currentTime tl)%num.
Proof.
  intros E. unfold play. rewrite E. reflexivity.
Qed.

(** The failing input of C2: a timeline of 1000 ms at [currentTime = 1000],
    not playing; after [play()] the playhead is still at 1000, not at 0. *)
Example play_on_finished_timeline (id : nat) :
  let tl := fst (play PUndefined (JS.Fin 5000) id Sample.finished) in
  isPlaying Sample.finished = false /\
  (currentTime Sample.finished >=? duration Sample.finished)%num = true /\
  currentTime tl ==n JS.Fin 1000 /\
  ~ currentTime tl ==n JS.Fin 0 /\
  isPlaying tl = true.
Proof.
  repeat split; try (vm_compute; reflexivity).
  intros H. vm_compute in H. discriminate H.
Qed.

(** What follows on the failing input: the frame after [play()] finds the
    playhead past the end and pauses the timeline again. *)
Example replay_completes_at_once :
  let tl := fst (play PUndefined (JS.Fin 5000) 1 Sample.finished) in
  let '(tl', es) := runAnimations (JS.Fin 5016) 2 tl in
  currentTime tl' ==n JS.Fin 1016 /\ isPlaying tl' = false /\
  isPaused tl' = true /\ es = [CancelAnimFrame 1].
Proof. vm_compute. repeat split; reflexivity. Qed.

(** ** The tween builder *)

(** The example of the specification: with [rect.left = 10] the end value
    of ['+=50'] is 60, and [seek(1)] leaves [left] at 60. *)
Example relative_end_value :
  (exists tw, AnimationOptions.onChange <$> (options <$> animations Sample.relativeTween !! 0%nat)
              = Some (Some tw)
              /\ endValues tw = [("left", VNumber (JS.Fin 60))]) /\
  exists v,
    (let '(tl, es) := seek (JS.Fin 1) Sample.relativeTween in
     (deliverAll tl es Sample.store !!! Sample.rect : gmap string JS.num) !! "left")
    = Some v /\ v ==n JS.Fin 60.
Proof.
  split; [eexists; split; vm_compute; reflexivity |].
  eexists. split; vm_compute; reflexivity.
Qed.

Lemma endValueOf_unparseable (start : option num) (s : string) :
  Text.matchRelativeValue s = None ->
  Text.parseFloat s = JS.NaN ->
  endValueOf start (VString s) = Some (VNumber JS.NaN).
Proof. intros Hm Hp. unfold endValueOf. rewrite Hm, Hp. reflexivity. Qed.

(** A tween of one property whose end value is a string that is neither
    relative nor a number: when the target holds a number there, every
    call of [onChange] writes the property, with what the easing makes of
    a [NaN] change. *)
Lemma unparseable_property_is_written (defaultEasing : Easing)
    (store : gmap nat (gmap string JS.num)) (object : nat) (key s : string)
    (seconds start x : num) (position : posval) (tl : Timeline) :
  Text.matchRelativeValue s = None ->
  Text.parseFloat s = JS.NaN ->
  (store !!! object : gmap string JS.num) !! key = Some start ->
  writesOf (to defaultEasing store object [(key, VString s)] seconds position None tl)
           (length (animations tl)) x
  = Some [(key, defaultEasing x start JS.NaN
                  (JS.falsy_or (Some (seconds * JS.Fin 1000)%num) (JS.Fin 0)))].
Proof.
  intros Hm Hp Hs. unfold writesOf, to.
  rewrite animations_add.
  rewrite lookup_app_r by reflexivity. rewrite Nat.sub_diag. simpl.
  unfold onChangeWrites. simpl.
  rewrite Hs, Hm, Hp. simpl. rewrite String.eqb_refl.
  destruct start; reflexivity.
Qed.

(** C3 (the code departs from the claim).  After
    [tl.to(rect, {left: 'abc'}, 1)] with [rect.left = 10], every call of
    the entry's [onChange] writes [left]: the end value is [NaN], whose
    type is number, and the value written is [NaN].  The claim has no
    write for such a property. *)
Theorem unparseable_end_value_is_written (x : num) :
  Text.matchRelativeValue "abc" = None /\
  Text.parseFloat "abc" = JS.NaN /\
  writesOf Sample.wordTween 0 x = Some [("left", JS.NaN)].
Proof.
  split; [reflexivity |]. split; [reflexivity |].
  vm_compute. reflexivity.
Qed.

(** What the write does to the object: [left] is [NaN] after [seek(0.5)]. *)
Example unparseable_end_value_on_store :
  let '(tl, es) := seek (JS.Fin (1 # 2)) Sample.wordTween in
  (deliverAll tl es Sample.store !!! Sample.rect : gmap string JS.num) !! "left"
  = Some JS.NaN.
Proof. vm_compute. reflexivity. Qed.

(** ** Labels *)

(** A token that no earlier rule of [add] takes is looked up in the label
    table, and the stored time is used when it is truthy. *)
Lemma resolvePosition_label (s : string) (tl : Timeline) :
  s <> ">" -> s <> "<" ->
  Text.matchRelativePosition s = None ->
  (Text.startsWith "+" s || Text.startsWith "-" s) && Text.includes "=" s = false ->
  resolvePosition (PString s) tl
  = match getLabel (labels tl) s with
    | Some v => if JS.truthyValue v then Some v else None
    | None => None
    end.
Proof.
  intros Hgt Hlt Hm Hop. unfold resolvePosition.
  apply String.eqb_neq in Hgt, Hlt. rewrite Hgt, Hlt, Hm, Hop. reflexivity.
Qed.

(** C5 (the code departs from the claim).  One second of animation, then
    [addLabel('start', 0)], then an entry added at ['start']: the label is
    in the table with the time 0, and the entry is stored with an
    undefined position, not with the time of the label, because the rule
    of the labels tests the stored time for truthiness.  The duration
    becomes 2000 ms where a start at 0 gives 1000 ms. *)
Theorem label_at_zero_is_not_resolved :
  (exists t, labels Sample.labelAtZero !! "start" = Some t /\ t ==n JS.Fin 0) /\
  position <$> list.last (animations Sample.atLabelZero) = Some PUndefined /\
  duration Sample.atLabelZero ==n JS.Fin 2000.
Proof.
  split; [eexists; split; vm_compute; reflexivity |].
  split; vm_compute; reflexivity.
Qed.

(** The same program with the label at 500 ms: the entry starts there. *)
Example label_at_half_is_resolved :
  (exists t, labels Sample.labelAtHalf !! "mid" = Some t /\ t ==n JS.Fin 500) /\
  (exists p, position <$> list.last (animations Sample.atLabelHalf) = Some (PNumber p)
             /\ p ==n JS.Fin 500) /\
  duration Sample.atLabelHalf ==n JS.Fin 1500.
Proof.
  split; [eexists; split; vm_compute; reflexivity |].
  split; [eexists; split; vm_compute; reflexivity |].
  vm_compute. reflexivity.
Qed.

(** The example of the specification: [addLabel('mid')] after 2000 ms of
    entries stores 2000, and an entry added at ['mid'] starts there. *)
Example label_at_the_end :
  labels Sample.labelAtEnd !! "mid" = Some (JS.Fin 2000) /\
  position <$> list.last (animations Sample.atLabelEnd) = Some (PNumber (JS.Fin 2000)).
Proof. split; vm_compute; reflexivity. Qed.

(** ** Progress *)

(** C8.  [progress(v)] with [v < 0] or [v > 1] returns the timeline as it
    is and does nothing but warn: no [onChange] is called.  With
    [0 <= v <= 1] it is the call [seek(duration * v / 1000)]. *)
Theorem progress_rejects_or_seeks (v : Q) (tl : Timeline) :
  ((v < 0 \/ 1 < v)%Q ->
     progress (JS.Fin v) tl
     = (tl, [Warn "Progress value should be between 0 and 1"])) /\
  ((0 <= v <= 1)%Q ->
     progress (JS.Fin v) tl
     = seek (duration tl * JS.Fin v / JS.Fin 1000)%num tl).
Proof.
  unfold progress, JS.gtb, JS.ltb. split.
  - intros [H | H].
    + apply Qle_bool_false in H. rewrite H. reflexivity.
    + apply Qle_bool_false in H. rewrite H. rewrite orb_true_r. reflexivity.
  - intros [H0 H1].
    apply Qle_bool_true in H0, H1. rewrite H0, H1. reflexivity.
Qed.

Lemma progress_rejects_or_seeks_witness :
  progress (JS.Fin 2) Sample.twoSeconds
  = (Sample.twoSeconds, [Warn "Progress value should be between 0 and 1"]) /\
  progress (JS.Fin (1 # 2)) Sample.twoSeconds
  = seek (duration Sample.twoSeconds * JS.Fin (1 # 2) / JS.Fin 1000)%num
         Sample.twoSeconds.
Proof.
  split.
  - apply (proj1 (progress_rejects_or_seeks 2 Sample.twoSeconds)).
    right. reflexivity.
  - apply (proj2 (progress_rejects_or_seeks (1 # 2) Sample.twoSeconds)).
    split; discriminate.
Defined.

(** ** The entries of a timeline are only ever appended by [add] *)

Lemma isString_ofResolved (r : option JS.value) : isString (ofResolved r) = false.
Proof. destruct r as [[n |] |]; reflexivity. Qed.

Lemma noStringPosition_add (o : AnimationOptions.t) (p : posval) (tl : Timeline) :
  noStringPosition (animations tl) -> noStringPosition (animations (add o p tl)).
Proof.
  intros H. rewrite animations_add. apply Forall_app. split; [exact H |].
  constructor; [apply isString_ofResolved | constructor].
Qed.

Lemma animations_addLabel (label : string) (p : posval) (tl : Timeline) :
  animations (addLabel label p tl) = animations tl.
Proof. destruct p; reflexivity. Qed.

Lemma animations_pause (tl : Timeline) : animations (fst (pause tl)) = animations tl.
Proof. unfold pause. simpl. destruct (animationFrameId tl); reflexivity. Qed.

Lemma animations_play (from : posval) (now : num) (id : nat) (tl : Timeline) :
  animations (fst (play from now id tl)) = animations tl.
Proof.
  unfold play. destruct (isPlaying tl); [reflexivity |].
  destruct from as [| n | s |]; simpl; try reflexivity.
  destruct (getLabel (labels tl) s); reflexivity.
Qed.

Lemma animations_reverse (now : num) (id : nat) (tl : Timeline) :
  animations (fst (reverse now id tl)) = animations tl.
Proof.
  unfold reverse. simpl. destruct (isPlayingInternal tl); simpl; [reflexivity |].
  destruct (currentTime tl >=? duration tl)%num; reflexivity.
Qed.

Lemma animations_seek (time : num) (tl : Timeline) :
  animations (fst (seek time tl)) = animations tl.
Proof. reflexivity. Qed.

Lemma animations_progress (value : num) (tl : Timeline) :
  animations (fst (progress value tl)) = animations tl.
Proof.
  unfold progress. destruct ((value <? JS.Fin 0) || (value >? JS.Fin 1))%num; reflexivity.
Qed.

Lemma animations_togglePlayPause (now : num) (id : nat) (tl : Timeline) :
  animations (fst (togglePlayPause now id tl)) = animations tl.
Proof.
  unfold togglePlayPause. destruct (isPlaying tl); [apply animations_pause |].
  destruct (playDirection tl); [apply animations_play | apply animations_reverse].
Qed.

Lemma animations_handleTimelineCompletion (time : num) (tl : Timeline) :
  animations (fst (handleTimelineCompletion time tl)) = animations tl.
Proof.
  unfold handleTimelineCompletion, handleRepeatForward, handleRepeatBackward.
  destruct (playDirection tl).
  - destruct (currentTime tl >=? _)%num; [| reflexivity].
    destruct (shouldRepeat tl).
    + simpl. destruct (shouldYoyo tl); reflexivity.
    + pose proof (animations_pause tl) as H. destruct (pause tl). exact H.
  - destruct (currentTime tl <=? _)%num; [| reflexivity].
    destruct (shouldRepeat tl); [reflexivity |].
    pose proof (animations_pause tl) as H. destruct (pause tl). exact H.
Qed.

Lemma animations_calculateCurrentTime (time : num) (tl : Timeline) :
  animations (calculateCurrentTime time tl) = animations tl.
Proof. reflexivity. Qed.

Lemma animations_runAnimations (time : num) (id : nat) (tl : Timeline) :
  animations (fst (runAnimations time id tl)) = animations tl.
Proof.
  unfold runAnimations.
  set (tl1 := match startTime tl with
              | Some s => if JS.truthy s then tl else set_startTime (Some time) tl
              | None => set_startTime (Some time) tl
              end).
  assert (H1 : animations tl1 = animations tl).
  { subst tl1. destruct (startTime tl) as [s |]; [destruct (JS.truthy s) |]; reflexivity. }
  pose proof (animations_handleTimelineCompletion time (calculateCurrentTime time tl1)) as H2.
  destruct (handleTimelineCompletion time (calculateCurrentTime time tl1)) as [tl2 es3].
  simpl in H2. unfold requestNextFrame.
  destruct (isPlaying tl2); simpl; congruence.
Qed.

(** Every action either leaves the entries alone or appends one entry
    whose position [add] has resolved. *)
Lemma animations_perform (defaultEasing : Easing) (tl : Timeline) (a : action) :
  animations (perform defaultEasing tl a) = animations tl \/
  exists o p,
    animations (perform defaultEasing tl a)
    = animations tl ++ [{| options := o; position := ofResolved (resolvePosition p tl) |}].
Proof.
  destruct a; cbn [perform].
  - right. unfold to. eexists. eexists. apply animations_add.
  - left. apply animations_addLabel.
  - left. apply animations_play.
  - left. apply animations_pause.
  - left. apply animations_reverse.
  - left. apply animations_togglePlayPause.
  - left. apply animations_seek.
  - left. apply animations_progress.
  - left. reflexivity.
  - left. apply animations_runAnimations.
Qed.

Lemma noStringPosition_run (defaultEasing : Easing) (o : TimelineOptions.t)
    (actions : list action) :
  noStringPosition (animations (run defaultEasing o actions)).
Proof.
  unfold run. induction actions as [| a actions IH] using rev_ind.
  - simpl. constructor.
  - rewrite fold_left_app. simpl.
    destruct (animations_perform defaultEasing
                (fold_left (perform defaultEasing) actions (new o)) a)
      as [H | (o' & p & H)]; rewrite H.
    + exact IH.
    + apply Forall_app. split; [exact IH |].
      constructor; [apply isString_ofResolved | constructor].
Qed.

(** The start that [seek] computes reads the label table only for a
    position that is a string. *)
Lemma seekStart_labels (tl tl' : Timeline) (a : Animation) :
  isString (position a) = false -> seekStart tl' a = seekStart tl a.
Proof. unfold seekStart. destruct (position a); try reflexivity. discriminate. Qed.

(** No entry of a timeline reached from [new Timeline(o)] has a string as
    its position, so that adding or redefining a label afterwards changes
    no entry and no start time: neither the one the frame loop uses nor
    the one [seek] computes. *)
Lemma labels_do_not_move_entries (defaultEasing : Easing)
    (o : TimelineOptions.t) (actions : list action) (label : string) (p : posval) :
  let tl := run defaultEasing o actions in
  Forall (fun a => isString (position a) = false) (animations tl) /\
  animations (addLabel label p tl) = animations tl /\
  Forall (fun a => seekStart (addLabel label p tl) a = seekStart tl a)
         (animations tl).
Proof.
  intros tl. pose proof (noStringPosition_run defaultEasing o actions) as H.
  fold tl in H. split; [exact H |]. split; [apply animations_addLabel |].
  unfold noStringPosition in H. rewrite Forall_forall in H |- *.
  intros a Ha. apply seekStart_labels. apply H. exact Ha.
Qed.

(** C10 (the code departs from the claim).  On a new timeline, whatever
    its options, [tl.to(object, properties, seconds, 'constructor')]
    stores an entry whose position is neither a number nor [undefined]:
    no label was defined, the token falls through to the rule of the
    labels, the read [this.labels['constructor']] finds the function that
    the table inherits from [Object.prototype], the function is truthy,
    and it is stored as [resolvedPosition], which the code declares
    [number | undefined]. *)
Theorem inherited_name_is_stored_as_position (defaultEasing : Easing)
    (o : TimelineOptions.t) (store : gmap nat (gmap string JS.num))
    (object : nat) (properties : list (string * jsval)) (seconds : num)
    (easing : option Easing) :
  let tl := to defaultEasing store object properties seconds
               (PString "constructor") easing (new o) in
  labels (new o) = ∅ /\
  getLabel (labels (new o)) "constructor" = Some JS.Obj /\
  position <$> animations tl = [PObject] /\
  position <$> animations tl <> [PUndefined] /\
  forall n, position <$> animations tl <> [PNumber n].
Proof.
  intros tl. split; [reflexivity |]. split; [reflexivity |].
  assert (H : position <$> animations tl = [PObject]) by reflexivity.
  split; [exact H |]. rewrite H. split; [discriminate |].
  intros n. discriminate.
Qed.

(** What follows on that input: the entry is treated like one without a
    position.  The duration counts it after the first entry, the frame
    loop and [seek] start it at 0. *)
Example inherited_name_entry :
  position <$> animations Sample.atConstructor = [PNumber (JS.Fin 0); PObject] /\
  duration Sample.atConstructor ==n JS.Fin 2000 /\
  exists v w,
    snd (seek (JS.Fin (1 # 2)) Sample.atConstructor) = [OnChange 0 v; OnChange 1 w] /\
    v ==n JS.Fin 500 /\ w ==n JS.Fin 500.
Proof.
  split; [vm_compute; reflexivity |]. split; [vm_compute; reflexivity |].
  eexists. eexists. split; [vm_compute; reflexivity |].
  split; vm_compute; reflexivity.
Qed.

(** A label of that name, once defined, shadows the inherited member. *)
Example own_label_shadows_inherited :
  getLabel (labels (addLabel "constructor" (PNumber (JS.Fin (1 # 2))) Sample.fresh))
           "constructor" = Some (JS.Num (JS.Fin (1 # 2) * JS.Fin 1000)%num) /\
  position <$> animations
     (Sample.moveLeft 1 (PString "constructor")
        (addLabel "constructor" (PNumber (JS.Fin (1 # 2))) Sample.fresh))
  = [PNumber (JS.Fin (1 # 2) * JS.Fin 1000)%num].
Proof. split; vm_compute; reflexivity. Qed.

(** ** Entries whose position is unresolved *)

Lemma scanDuration_snoc (l : list Animation) (a : Animation) :
  scanDuration (l ++ [a]) = durationStep (scanDuration l) a.
Proof. unfold scanDuration. rewrite fold_left_app. reflexivity. Qed.

(** An entry added at a label that does not exist: the duration counts it
    after the first entry (2000 ms in all), and [seek(0.5)] runs both
    entries at 500 ms of their own time. *)
Example missing_label_entry :
  position <$> list.last (animations Sample.atMissingLabel) = Some PUndefined /\
  duration Sample.atMissingLabel ==n JS.Fin 2000 /\
  exists v w,
    snd (seek (JS.Fin (1 # 2)) Sample.atMissingLabel) = [OnChange 0 v; OnChange 1 w] /\
    v ==n JS.Fin 500 /\ w ==n JS.Fin 500.
Proof.
  split; [vm_compute; reflexivity |]. split; [vm_compute; reflexivity |].
  eexists. eexists. split; [vm_compute; reflexivity |].
  split; vm_compute; reflexivity.
Qed.

(** ** Seeking *)

Lemma callsOf_app (i : nat) (es es' : list event) :
  callsOf i (es ++ es') = callsOf i es ++ callsOf i es'.
Proof. apply List.filter_app. Qed.

Lemma callsOf_callOnChange (i j : nat) (a : Animation) (v : num) :
  callsOf i (callOnChange j a v)
  = if Nat.eqb j i then callOnChange j a v else [].
Proof.
  unfold callOnChange. destruct (AnimationOptions.onChange (options a)); simpl.
  - destruct (Nat.eqb j i); reflexivity.
  - destruct (Nat.eqb j i); reflexivity.
Qed.

Section ForEach.

Variable value : Animation -> num.

Let body (j : nat) (a : Animation) : list event := callOnChange j a (value a).

Lemma callsOf_forEachFrom_before (i k : nat) (l : list Animation) :
  (i < k)%nat -> callsOf i (forEachFrom k body l) = [].
Proof.
  revert k. induction l as [| b l IH]; intros k Hlt; [reflexivity |].
  simpl. rewrite callsOf_app. unfold body at 1. rewrite callsOf_callOnChange.
  destruct (Nat.eqb_spec k i) as [-> | _]; [lia |].
  simpl. apply IH. lia.
Qed.

(** The loop calls the [onChange] of each entry once, if it has one. *)
Lemma callsOf_forEachFrom (i k : nat) (l : list Animation) (a : Animation) :
  l !! i = Some a ->
  callsOf (k + i) (forEachFrom k body l) = callOnChange (k + i) a (value a).
Proof.
  revert i k. induction l as [| b l IH]; intros i k Hl; [discriminate |].
  simpl. rewrite callsOf_app. unfold body at 1. rewrite callsOf_callOnChange.
  destruct i as [| i].
  - simpl in Hl. injection Hl as ->. rewrite Nat.add_0_r, Nat.eqb_refl.
    rewrite callsOf_forEachFrom_before by lia. apply app_nil_r.
  - simpl in Hl. destruct (Nat.eqb_spec k (k + S i)) as [Heq | _]; [lia |].
    simpl. replace (k + S i)%nat with (S k + i)%nat by lia. apply IH. exact Hl.
Qed.

Lemma forEachFrom_isOnChange (k : nat) (l : list Animation) :
  forallb isOnChange (forEachFrom k body l) = true.
Proof.
  revert k. induction l as [| b l IH]; intros k; [reflexivity |].
  simpl. rewrite forallb_app, IH, andb_true_r. unfold body, callOnChange.
  destruct (AnimationOptions.onChange (options b)); reflexivity.
Qed.

End ForEach.

Lemma seek_events (time : num) (tl : Timeline) :
  snd (seek time tl)
  = forEachFrom 0
      (fun j a => callOnChange j a
                    (seekValue (set_currentTime (time * JS.Fin 1000)%num tl) a))
      (animations tl).
Proof. reflexivity. Qed.

(** The three cases of [seek] for an entry that starts at [p] and lasts
    [d], at the playhead [c]. *)
Lemma seekValue_cases (tl : Timeline) (a : Animation) (c p d : Q) :
  currentTime tl = JS.Fin c ->
  isString (position a) = false ->
  resolveAnimationStartTime a = JS.Fin p ->
  JS.nullish (AnimationOptions.duration (options a)) (JS.Fin 0) = JS.Fin d ->
  ((c < p)%Q -> seekValue tl a = JS.Fin 0) /\
  ((p <= c <= p + d)%Q -> seekValue tl a ==n JS.Fin (c - p)) /\
  ((p <= c)%Q -> (p + d < c)%Q -> seekValue tl a = JS.Fin d).
Proof.
  intros Hc Hs Hp Hd. unfold seekValue, seekStart.
  unfold resolveAnimationStartTime in Hp. rewrite Hc, Hd.
  destruct (position a) as [| n | s |]; [| | discriminate Hs |].
  - injection Hp as <-. simpl.
    repeat split; intros; split_comparisons; try reflexivity; lra.
  - subst n. simpl.
    repeat split; intros; split_comparisons; try reflexivity; lra.
  - injection Hp as <-. simpl.
    repeat split; intros; split_comparisons; try reflexivity; lra.
Qed.

(** C7.  [seek(t)] sets [currentTime] to [t * 1000] and leaves [isPlaying],
    [isPaused] and the pending frame handle as they are; it requests and
    cancels no frame and calls nothing but [onChange].  For an entry that
    has an [onChange], starts at [p] and lasts [d], it calls that
    [onChange] exactly once: with 0 when the playhead is before [p], with
    the playhead minus [p] when it is inside [[p, p + d]], with [d] when
    it is past [p + d]. *)
Theorem seek_evaluates_every_entry (t : Q) (tl : Timeline) (i : nat)
    (a : Animation) (p d : Q) :
  animations tl !! i = Some a ->
  isString (position a) = false ->
  resolveAnimationStartTime a = JS.Fin p ->
  JS.nullish (AnimationOptions.duration (options a)) (JS.Fin 0) = JS.Fin d ->
  is_Some (AnimationOptions.onChange (options a)) ->
  let tl' := fst (seek (JS.Fin t) tl) in
  let es := snd (seek (JS.Fin t) tl) in
  let c := (t * 1000)%Q in
  currentTime tl' = JS.Fin c /\
  isPlaying tl' = isPlaying tl /\
  isPaused tl' = isPaused tl /\
  animationFrameId tl' = animationFrameId tl /\
  forallb isOnChange es = true /\
  exists v,
    callsOf i es = [OnChange i v] /\
    ((c < p)%Q -> v = JS.Fin 0) /\
    ((p <= c <= p + d)%Q -> v ==n JS.Fin (c - p)) /\
    ((p <= c)%Q -> (p + d < c)%Q -> v = JS.Fin d).
Proof.
  intros Hl Hs Hp Hd [tw Htw] tl' es c.
  split; [reflexivity |]. split; [reflexivity |]. split; [reflexivity |].
  split; [reflexivity |].
  subst es. rewrite seek_events.
  split; [apply forEachFrom_isOnChange |].
  exists (seekValue tl' a). split.
  - rewrite (callsOf_forEachFrom _ i 0 _ a Hl). simpl.
    unfold callOnChange. rewrite Htw. reflexivity.
  - apply seekValue_cases; [reflexivity | assumption ..].
Qed.

Lemma seek_evaluates_every_entry_witness :
  currentTime (fst (seek (JS.Fin (3 # 2)) Sample.twoInSequence))
  = JS.Fin ((3 # 2) * 1000) /\
  exists v,
    callsOf 0 (snd (seek (JS.Fin (3 # 2)) Sample.twoInSequence)) = [OnChange 0 v] /\
    v = JS.Fin (1 * 1000).
Proof.
  destruct (seek_evaluates_every_entry (3 # 2) Sample.twoInSequence 0 _
              (0 + 0) (1 * 1000)
              eq_refl eq_refl eq_refl eq_refl (ex_intro _ _ eq_refl))
    as (H1 & _ & _ & _ & _ & v & Hv & _ & _ & H4).
  split; [exact H1 |].
  exists v. split; [exact Hv |].
  apply H4; reflexivity || discriminate.
Defined.

(** The example of the specification: after the two tweens in sequence the
    duration is 2000 ms, and [seek(1.5)] calls the first [onChange] with
    1000 and the second with 500. *)
Example seek_two_in_sequence :
  duration Sample.twoInSequence ==n JS.Fin 2000 /\
  exists v w,
    snd (seek (JS.Fin (3 # 2)) Sample.twoInSequence) = [OnChange 0 v; OnChange 1 w] /\
    v ==n JS.Fin 1000 /\ w ==n JS.Fin 500.
Proof.
  split; [vm_compute; reflexivity |].
  eexists. eexists. split; [vm_compute; reflexivity |].
  split; vm_compute; reflexivity.
Qed.

(** ** Chains of tweens *)

Lemma sumOfDurations_snoc (cs : list tween) (c : tween) :
  (sumOfDurations (cs ++ [c]) == sumOfDurations cs + tweenSeconds c * 1000)%Q.
Proof.
  induction cs as [| b cs IH]; simpl.
  - lra.
  - rewrite IH. lra.
Qed.

Lemma last_snoc_entry (l : list Animation) (a : Animation) :
  list.last (l ++ [a]) = Some a.
Proof. apply last_snoc. Qed.

Lemma chained_new (o : TimelineOptions.t) : chained [] (new o).
Proof.
  constructor.
  - reflexivity.
  - exists 0%Q. split; reflexivity.
  - exists (0 + 0)%Q. split; reflexivity.
  - reflexivity.
  - intros i a H. simpl in H. rewrite lookup_nil in H. discriminate.
Qed.

Lemma chained_step (defaultEasing : Easing) (cs : list tween) (c : tween)
    (tl : Timeline) :
  (0 <= tweenSeconds c)%Q ->
  chained cs tl -> chained (cs ++ [c]) (chainTo defaultEasing tl c).
Proof.
  intros Hc [Hscan (D & HD & HDs) (E & HE & HEs) Hlen Hent].
  pose proof (sumOfDurations_snoc cs c) as Hsum.
  unfold chainTo, to.
  set (opts := {| AnimationOptions.duration := _ |}).
  assert (Hanim : animations (add opts PUndefined tl)
                  = animations tl ++ [{| options := opts; position := PNumber (JS.Fin E) |}]).
  { rewrite animations_add, HE. reflexivity. }
  assert (Hdur : exists D', duration (add opts PUndefined tl) = JS.Fin D'
                            /\ (D' == sumOfDurations (cs ++ [c]))%Q).
  { rewrite duration_add, Hanim, scanDuration_snoc, <- Hscan, HD.
    unfold durationStep. simpl.
    split_comparisons; eexists; (split; [reflexivity | lra]). }
  constructor.
  - apply duration_add.
  - exact Hdur.
  - unfold resolvePosition. rewrite Hanim, last_snoc_entry. simpl.
    eexists. split; [reflexivity | lra].
  - rewrite Hanim, !length_app, Hlen. reflexivity.
  - intros i a Hi. rewrite Hanim in Hi.
    destruct (Nat.lt_ge_cases i (length (animations tl))) as [Hlt | Hge].
    + rewrite lookup_app_l in Hi by exact Hlt.
      destruct (Hent i a Hi) as (p & q & Hp & Hq & Hps & Hpq).
      exists p, q. rewrite !take_app_le by lia. auto.
    + rewrite lookup_app_r in Hi by exact Hge.
      destruct (i - length (animations tl))%nat as [| k] eqn:Hk;
        [| simpl in Hi; rewrite lookup_nil in Hi; discriminate].
      simpl in Hi. injection Hi as <-.
      assert (i = length cs) as -> by lia.
      exists E, (tweenSeconds c * 1000)%Q. simpl.
      split; [reflexivity |]. split; [reflexivity |].
      rewrite take_app_le by lia. rewrite firstn_all.
      rewrite take_ge by (rewrite length_app; simpl; lia).
      split; lra.
Qed.

Lemma chained_fold (defaultEasing : Easing) (o : TimelineOptions.t) (cs : list tween) :
  Forall (fun c => (0 <= tweenSeconds c)%Q) cs ->
  chained cs (fold_left (chainTo defaultEasing) cs (new o)).
Proof.
  induction cs as [| c cs IH] using rev_ind; intros H.
  - apply chained_new.
  - apply Forall_app in H. destruct H as [Hcs Hc].
    rewrite fold_left_app. simpl. apply chained_step.
    + inversion Hc; assumption.
    + apply IH. exact Hcs.
Qed.

(** C6.  After a chain of [to] calls without a position on a new
    timeline, each with a non-negative duration, the duration of the
    timeline is the sum of the durations of the entries; entry [i] starts
    at the sum of the durations before it, that is where entry [i - 1]
    ends. *)
Theorem chain_duration_is_sum (defaultEasing : Easing) (o : TimelineOptions.t)
    (cs : list tween) :
  Forall (fun c => (0 <= tweenSeconds c)%Q) cs ->
  let tl := fold_left (chainTo defaultEasing) cs (new o) in
  duration tl ==n JS.Fin (sumOfDurations cs) /\
  length (animations tl) = length cs /\
  forall i a, animations tl !! i = Some a ->
    exists p q,
      position a = PNumber (JS.Fin p) /\
      AnimationOptions.duration (options a) = Some (JS.Fin q) /\
      (p == sumOfDurations (take i cs))%Q /\
      (p + q == sumOfDurations (take (S i) cs))%Q.
Proof.
  intros H tl.
  destruct (chained_fold defaultEasing o cs H)
    as [_ (D & HD & HDs) _ Hlen Hent].
  fold tl in HD, Hlen, Hent.
  split; [rewrite HD; exact HDs |]. split; [exact Hlen | exact Hent].
Qed.

Lemma chain_duration_is_sum_witness :
  duration (fold_left (chainTo Sample.linear) Sample.chain Sample.fresh)
  ==n JS.Fin (sumOfDurations Sample.chain).
Proof.
  apply (chain_duration_is_sum Sample.linear TimelineOptions.empty Sample.chain).
  repeat constructor; discriminate.
Defined.

(** ** The playhead of a frame *)

Lemma Qtrunc_nonneg (q : Q) : (0 <= q)%Q -> JS.Qtrunc q = Qfloor q.
Proof.
  destruct q as [n m]. unfold Qle, JS.Qtrunc, Qfloor. simpl. intros H.
  apply Z.quot_div_nonneg; lia.
Qed.

Lemma Qdiv_nonneg (x y : Q) : (0 <= x)%Q -> (0 < y)%Q -> (0 <= x / y)%Q.
Proof.
  intros Hx Hy. apply Qle_shift_div_l; [exact Hy | lra].
Qed.

(** On a non-negative dividend and a positive divisor the remainder of
    [%] is the remainder of the floored division. *)
Lemma rem_nonneg (x y : Q) :
  (0 <= x)%Q -> (0 < y)%Q ->
  JS.rem (JS.Fin x) (JS.Fin y) = JS.Fin (x - y * inject_Z (Qfloor (x / y))).
Proof.
  intros Hx Hy. unfold JS.rem.
  case_Qeq y 0%Q; [lra |].
  rewrite Qtrunc_nonneg by (apply Qdiv_nonneg; assumption). reflexivity.
Qed.

Lemma Qtrunc_half (n : Z) : JS.Qtrunc (inject_Z n / 2) = Z.quot n 2.
Proof.
  unfold JS.Qtrunc, inject_Z, Qdiv, Qmult, Qinv. simpl.
  rewrite Z.mul_1_r. reflexivity.
Qed.

(** The test [cycleNumber % 2 === 1] on an integer. *)
Lemma rem_two_is_one (n : Z) :
  JS.eqb (JS.rem (JS.Fin (inject_Z n)) (JS.Fin 2)) (JS.Fin 1) = (Z.rem n 2 =? 1)%Z.
Proof.
  unfold JS.rem, JS.eqb. simpl Qeq_bool at 1. cbv iota.
  rewrite Qtrunc_half.
  assert (H : (inject_Z n - 2 * inject_Z (Z.quot n 2) == inject_Z (Z.rem n 2))%Q).
  { rewrite (Z.quot_rem' n 2) at 1.
    rewrite inject_Z_plus, inject_Z_mult. simpl. ring. }
  destruct (Z.eqb_spec (Z.rem n 2) 1) as [E | E].
  - apply Qeq_bool_iff. rewrite H, E. reflexivity.
  - apply Qeq_bool_false. rewrite H. intros Heq.
    apply E. apply (inject_Z_injective (Z.rem n 2) 1). exact Heq.
Qed.

Lemma odd_rem (n : Z) : (0 <= n)%Z -> (Z.rem n 2 =? 1)%Z = Z.odd n.
Proof.
  intros H. rewrite Z.rem_mod_nonneg by lia.
  rewrite Zodd_mod. reflexivity.
Qed.

Lemma max_zero (x y : Q) :
  (x == y)%Q -> JS.max (JS.Fin 0) (JS.Fin x) ==n JS.Fin (Qmax 0 y).
Proof.
  intros E. unfold JS.max. destruct (Q.max_spec 0 y) as [[H1 H2] | [H1 H2]];
    case_Qle 0%Q x; simpl; lra.
Qed.

Lemma currentTime_handleTimelineCompletion (time : num) (tl : Timeline) :
  currentTime (fst (handleTimelineCompletion time tl)) = currentTime tl.
Proof.
  unfold handleTimelineCompletion, handleRepeatForward, handleRepeatBackward, pause.
  destruct (playDirection tl).
  - destruct (currentTime tl >=? _)%num; [| reflexivity].
    destruct (shouldRepeat tl).
    + simpl. destruct (shouldYoyo tl); reflexivity.
    + simpl. destruct (animationFrameId tl); reflexivity.
  - destruct (currentTime tl <=? _)%num; [| reflexivity].
    destruct (shouldRepeat tl); [reflexivity |].
    simpl. destruct (animationFrameId tl); reflexivity.
Qed.

(** The playhead after a frame is the one [calculateCurrentTime] computes
    from the anchor of the frame. *)
Lemma currentTime_frame (time : num) (id : nat) (tl : Timeline) :
  currentTime (fst (runAnimations time id tl))
  = currentTime
      (calculateCurrentTime time
         match startTime tl with
         | Some s => if JS.truthy s then tl else set_startTime (Some time) tl
         | None => set_startTime (Some time) tl
         end).
Proof.
  unfold runAnimations.
  set (tl2 := calculateCurrentTime _ _).
  pose proof (currentTime_handleTimelineCompletion time tl2) as H.
  destruct (handleTimelineCompletion time tl2) as [tl3 es3]. simpl in H.
  unfold requestNextFrame. destruct (isPlaying tl3); simpl; exact H.
Qed.

Lemma currentTime_runAnimations (t : Q) (id : nat) (tl : Timeline) :
  currentTime (fst (runAnimations (JS.Fin t) id tl))
  = currentTime
      (calculateCurrentTime (JS.Fin t)
         match startTime tl with
         | Some s => if JS.truthy s then tl else set_startTime (Some (JS.Fin t)) tl
         | None => set_startTime (Some (JS.Fin t)) tl
         end).
Proof. apply currentTime_frame. Qed.

(** What [calculateCurrentTime] computes at [t] from the anchor [s]. *)
Lemma calculateCurrentTime_playhead (tl : Timeline) (t s d r : Q) :
  startTime tl = Some (JS.Fin s) ->
  duration tl = JS.Fin d ->
  repeatDelay tl = JS.Fin r ->
  let elapsed := (t - s)%Q in
  let tl' := calculateCurrentTime (JS.Fin t) tl in
  (JS.eqb (repeat tl) (JS.Fin 0) = false ->
   (0 <= elapsed)%Q -> (0 < d + r * 1000)%Q ->
   currentTime tl'
   ==n JS.Fin (foldedTime d r elapsed (shouldYoyo tl) (playDirection tl))) /\
  (JS.eqb (repeat tl) (JS.Fin 0) = true ->
   currentTime tl' ==n JS.Fin (unfoldedTime d elapsed (playDirection tl))).
Proof.
  intros Hs Hd Hr elapsed tl'. subst tl'. unfold calculateCurrentTime.
  rewrite Hs, Hd, Hr. simpl JS.nullish. split.
  - intros Hrep He Hc. rewrite Hrep. simpl negb. cbv iota.
    change (JS.Fin t - JS.Fin s)%num with (JS.Fin elapsed).
    change (JS.Fin d + JS.Fin r * JS.Fin 1000)%num with (JS.Fin (d + r * 1000)).
    set (cd := (d + r * 1000)%Q) in *.
    rewrite (rem_nonneg elapsed cd He Hc).
    assert (Hdiv : (JS.Fin elapsed / JS.Fin cd)%num = JS.Fin (elapsed / cd)).
    { unfold JS.div. case_Qeq cd 0%Q; [lra | reflexivity]. }
    rewrite Hdiv.
    change (JS.floor (JS.Fin (elapsed / cd)))
      with (JS.Fin (inject_Z (Qfloor (elapsed / cd)))).
    rewrite rem_two_is_one.
    assert (Hfl : (0 <= Qfloor (elapsed / cd))%Z).
    { change 0%Z with (Qfloor 0). apply Qfloor_resp_le.
      apply Qdiv_nonneg; assumption. }
    rewrite (odd_rem _ Hfl).
    unfold foldedTime. cbv zeta. fold cd.
    set (n := Qfloor (elapsed / cd)) in *.
    destruct (shouldYoyo tl); destruct (Z.odd n); destruct (playDirection tl);
      cbn [andb currentTime set_currentTime JS.sub JS.lift2 JS.ToNumber];
      try (apply max_zero); unfold JS.num_eq; ring.
  - intros Hrep. rewrite Hrep. simpl negb. cbv iota. simpl currentTime.
    cbn [JS.ToNumber].
    unfold unfoldedTime. destruct (playDirection tl).
    + simpl. reflexivity.
    + apply max_zero. reflexivity.
Qed.

(** C4, as amended.  The frame at [t] of a loop anchored at [s] (an
    anchor other than 0, which the frame would replace by [t]), with
    [elapsed = t - s]: when [repeat] is not 0, [elapsed] is not negative
    and the cycle duration is positive, the playhead after the frame
    follows the folding rule; when [repeat] is 0 nothing is folded, and
    the playhead is [elapsed] forward and [max(0, duration - elapsed)]
    backward, whatever [yoyo] and [repeatDelay] are. *)
Theorem playhead_of_a_frame (tl : Timeline) (t s d r : Q) (id : nat) :
  startTime tl = Some (JS.Fin s) ->
  ~ (s == 0)%Q ->
  duration tl = JS.Fin d ->
  repeatDelay tl = JS.Fin r ->
  let elapsed := (t - s)%Q in
  let tl' := fst (runAnimations (JS.Fin t) id tl) in
  (JS.eqb (repeat tl) (JS.Fin 0) = false ->
   (0 <= elapsed)%Q -> (0 < d + r * 1000)%Q ->
   currentTime tl'
   ==n JS.Fin (foldedTime d r elapsed (shouldYoyo tl) (playDirection tl))) /\
  (JS.eqb (repeat tl) (JS.Fin 0) = true ->
   currentTime tl' ==n JS.Fin (unfoldedTime d elapsed (playDirection tl))).
Proof.
  intros Hs Hs0 Hd Hr elapsed tl'. subst tl'.
  rewrite currentTime_frame, Hs.
  assert (Ht : JS.truthy (JS.Fin s) = true).
  { unfold JS.truthy. case_Qeq s 0%Q; [contradiction | reflexivity]. }
  rewrite Ht. apply calculateCurrentTime_playhead; assumption.
Qed.

Lemma playhead_of_a_frame_witness :
  currentTime (fst (runAnimations (JS.Fin 1350) 2 Sample.yoyoPlaying))
  ==n JS.Fin (foldedTime 1000 0 (1350 - 100) true forward) /\
  currentTime (fst (runAnimations (JS.Fin 1200) 2 Sample.playingOnce))
  ==n JS.Fin (unfoldedTime 1000 (1200 - 100) forward).
Proof.
  assert (Hs0 : ~ (100 == 0)%Q) by discriminate.
  split.
  - apply (proj1 (playhead_of_a_frame Sample.yoyoPlaying 1350 100 1000 0 2
                    eq_refl Hs0 eq_refl eq_refl)).
    + reflexivity.
    + discriminate.
    + reflexivity.
  - apply (proj2 (playhead_of_a_frame Sample.playingOnce 1200 100 1000 0 2
                    eq_refl Hs0 eq_refl eq_refl)).
    reflexivity.
Defined.

(** The claim C4 as it is stated fails when [repeat] is 0: on a timeline
    of 1000 ms that [play()] started at the time 100, the frame at 1200
    puts the playhead at 1100 ms, and the folding rule gives 100 ms. *)
Lemma folding_rule_fails_without_repeat :
  ~ currentTime (fst (runAnimations (JS.Fin 1200) 2 Sample.playingOnce))
    ==n JS.Fin (foldedTime 1000 0 (1200 - 100)
                  (shouldYoyo Sample.playingOnce)
                  (playDirection Sample.playingOnce)).
Proof. intros H. vm_compute in H. discriminate H. Qed.

Example playhead_without_repeat :
  JS.eqb (repeat Sample.playingOnce) (JS.Fin 0) = true /\
  startTime Sample.playingOnce = Some (JS.Fin 100) /\
  duration Sample.playingOnce ==n JS.Fin 1000 /\
  currentTime (fst (runAnimations (JS.Fin 1200) 2 Sample.playingOnce))
  ==n JS.Fin 1100 /\
  (foldedTime 1000 0 (1200 - 100) false forward == 100)%Q.
Proof. repeat split; vm_compute; reflexivity. Qed.

(** With [repeat: 2, yoyo: true] the second cycle runs backwards. *)
Example playhead_in_second_cycle :
  startTime Sample.yoyoPlaying = Some (JS.Fin 100) /\
  currentTime (fst (runAnimations (JS.Fin 1350) 2 Sample.yoyoPlaying))
  ==n JS.Fin 750 /\
  currentTime (fst (runAnimations (JS.Fin 2350) 2 Sample.yoyoPlaying))
  ==n JS.Fin 250.
Proof. repeat split; vm_compute; reflexivity. Qed.

(** Why [elapsed] is taken non-negative: [%] keeps the sign of the
    dividend, so a frame stamped 50 ms before the anchor yields -50 ms,
    where the rule, with the floored division, gives 50 ms. *)
Example playhead_before_the_anchor :
  currentTime (fst (runAnimations (JS.Fin 50) 2 Sample.yoyoPlaying))
  ==n JS.Fin (-50) /\
  (foldedTime 1000 0 (50 - 100) true forward == 50)%Q.
Proof. split; vm_compute; reflexivity. Qed.

(** ** Entries whose position is unresolved, in the frame loop and in [seek] *)

Section ForEachBody.

Variable body : nat -> Animation -> list event.

Hypothesis body_calls :
  forall i j a, callsOf i (body j a) = if Nat.eqb j i then body j a else [].



End ForEachBody.










(** * Further properties of the class *)

(** ** Playback leaves the schedule alone *)

Lemma sameSchedule_refl (tl : Timeline) : sameSchedule tl tl.
Proof. repeat split. Qed.

Lemma sameSchedule_trans (a b c : Timeline) :
  sameSchedule a b -> sameSchedule b c -> sameSchedule a c.
Proof.
  unfold sameSchedule. intros H1 H2.
  destruct H1 as (?&?&?&?&?&?&?&?&?), H2 as (?&?&?&?&?&?&?&?&?).
  repeat split; congruence.
Qed.

Lemma sameSchedule_pause (tl : Timeline) : sameSchedule tl (fst (pause tl)).
Proof. unfold pause. simpl. destruct (animationFrameId tl); repeat split. Qed.

Lemma sameSchedule_play (from : posval) (now : num) (id : nat) (tl : Timeline) :
  sameSchedule tl (fst (play from now id tl)).
Proof.
  unfold play. destruct (isPlaying tl); [apply sameSchedule_refl |].
  destruct from as [| n | s |]; simpl; try (repeat split; fail).
  destruct (getLabel (labels tl) s); repeat split.
Qed.

Lemma sameSchedule_reverse (now : num) (id : nat) (tl : Timeline) :
  sameSchedule tl (fst (reverse now id tl)).
Proof.
  unfold reverse. simpl. destruct (isPlayingInternal tl); simpl; [repeat split |].
  destruct (currentTime tl >=? duration tl)%num; repeat split.
Qed.

Lemma sameSchedule_seek (time : num) (tl : Timeline) :
  sameSchedule tl (fst (seek time tl)).
Proof. repeat split. Qed.

Lemma sameSchedule_progress (value : num) (tl : Timeline) :
  sameSchedule tl (fst (progress value tl)).
Proof.
  unfold progress.
  destruct ((value <? JS.Fin 0) || (value >? JS.Fin 1))%num; repeat split.
Qed.

Lemma sameSchedule_togglePlayPause (now : num) (id : nat) (tl : Timeline) :
  sameSchedule tl (fst (togglePlayPause now id tl)).
Proof.
  unfold togglePlayPause. destruct (isPlaying tl); [apply sameSchedule_pause |].
  destruct (playDirection tl); [apply sameSchedule_play | apply sameSchedule_reverse].
Qed.

Lemma sameSchedule_handleTimelineCompletion (time : num) (tl : Timeline) :
  sameSchedule tl (fst (handleTimelineCompletion time tl)).
Proof.
  unfold handleTimelineCompletion, handleRepeatForward, handleRepeatBackward.
  destruct (playDirection tl).
  - destruct (currentTime tl >=? _)%num; [| apply sameSchedule_refl].
    destruct (shouldRepeat tl).
    + simpl. destruct (shouldYoyo tl); repeat split.
    + pose proof (sameSchedule_pause tl) as H. destruct (pause tl). exact H.
  - destruct (currentTime tl <=? _)%num; [| apply sameSchedule_refl].
    destruct (shouldRepeat tl); [repeat split |].
    pose proof (sameSchedule_pause tl) as H. destruct (pause tl). exact H.
Qed.

Lemma sameSchedule_runAnimations (time : num) (id : nat) (tl : Timeline) :
  sameSchedule tl (fst (runAnimations time id tl)).
Proof.
  unfold runAnimations.
  set (tl1 := match startTime tl with
              | Some s => if JS.truthy s then tl else set_startTime (Some time) tl
              | None => set_startTime (Some time) tl
              end).
  assert (H1 : sameSchedule tl tl1).
  { subst tl1. destruct (startTime tl) as [s |]; [destruct (JS.truthy s) |];
      repeat split. }
  pose proof (sameSchedule_handleTimelineCompletion time (calculateCurrentTime time tl1)) as H2.
  destruct (handleTimelineCompletion time (calculateCurrentTime time tl1)) as [tl2 es3].
  simpl in H2.
  assert (H3 : sameSchedule tl2 (fst (requestNextFrame id tl2))).
  { unfold requestNextFrame. destruct (isPlaying tl2); repeat split. }
  destruct (requestNextFrame id tl2) as [tl3 es4]. simpl in *.
  eapply sameSchedule_trans; [| exact H3].
  eapply sameSchedule_trans; [exact H1 |].
  eapply sameSchedule_trans; [| exact H2]. repeat split.
Qed.

Lemma sameSchedule_perform (defaultEasing : Easing) (tl : Timeline)
    (a : action) :
  isBuilder a = false -> sameSchedule tl (perform defaultEasing tl a).
Proof.
  destruct a; cbn [perform isBuilder]; intros H; try discriminate H.
  - apply sameSchedule_play.
  - apply sameSchedule_pause.
  - apply sameSchedule_reverse.
  - apply sameSchedule_togglePlayPause.
  - apply sameSchedule_seek.
  - apply sameSchedule_progress.
  - repeat split.
  - apply sameSchedule_runAnimations.
Qed.

(** X1.  No playback action ([play], [pause], [reverse],
    [togglePlayPause], [seek], [progress], the setter [yoyo], a frame)
    changes the schedule: the entries, the labels, the duration, [repeat],
    [repeatDelay] and the four callbacks are what they were. *)
Theorem playback_keeps_the_schedule (defaultEasing : Easing) (tl : Timeline)
    (a : action) :
  isBuilder a = false -> sameSchedule tl (perform defaultEasing tl a).
Proof. apply sameSchedule_perform. Qed.

Lemma playback_keeps_the_schedule_witness :
  sameSchedule Sample.twoInSequence
    (perform Sample.linear Sample.twoInSequence (DoFrame (JS.Fin 16) 1)).
Proof.
  apply (playback_keeps_the_schedule Sample.linear Sample.twoInSequence
           (DoFrame (JS.Fin 16) 1)).
  reflexivity.
Defined.


(** ** Invariants of every timeline *)

Lemma duration_addLabel (label : string) (p : posval) (tl : Timeline) :
  duration (addLabel label p tl) = duration tl.
Proof. destruct p; reflexivity. Qed.

Lemma run_snoc (defaultEasing : Easing) (o : TimelineOptions.t)
    (actions : list action) (a : action) :
  run defaultEasing o (actions ++ [a])
  = perform defaultEasing (run defaultEasing o actions) a.
Proof. unfold run. rewrite fold_left_app. reflexivity. Qed.

(** X2.  In every timeline reached from [new Timeline(o)] by calls of the
    public methods and by frames, [duration] is the value that
    [calculateDuration] computes from the entries: no method lets the two
    drift apart. *)
Theorem duration_is_up_to_date (defaultEasing : Easing) (o : TimelineOptions.t)
    (actions : list action) :
  let tl := run defaultEasing o actions in
  duration tl = scanDuration (animations tl).
Proof.
  induction actions as [| a actions IH] using rev_ind; [reflexivity |].
  cbv zeta in *. rewrite run_snoc.
  set (tl := run defaultEasing o actions) in *.
  destruct (isBuilder a) eqn:Hb.
  - destruct a; try discriminate Hb; cbn [perform].
    + unfold to. apply duration_add.
    + rewrite duration_addLabel, animations_addLabel. exact IH.
  - destruct (sameSchedule_perform defaultEasing tl a Hb)
      as (Ha & _ & Hd & _).
    rewrite Ha, Hd. exact IH.
Qed.


Lemma coherent_pause (tl : Timeline) : coherent (fst (pause tl)).
Proof.
  unfold coherent, pause, isPlaying, isPaused, is_Some. simpl.
  destruct (animationFrameId tl) eqn:E; simpl; rewrite ?E.
  all: split; [split |]; intros H; try discriminate H.
  all: destruct H as [? H]; discriminate H.
Qed.

Lemma coherent_start (id : nat) (tl : Timeline) :
  isPlaying tl = true -> isPaused tl = false ->
  coherent (set_animationFrameId (Some id) tl).
Proof.
  intros H1 H2. unfold coherent, isPlaying, isPaused in *. simpl.
  rewrite H1, H2. split; [split; eauto | reflexivity].
Qed.

Lemma coherent_play (from : posval) (now : num) (id : nat) (tl : Timeline) :
  coherent tl -> coherent (fst (play from now id tl)).
Proof.
  intros H. unfold play. destruct (isPlaying tl) eqn:E; [exact H |].
  cbn [fst]. apply coherent_start.
  - destruct from as [| n | s |]; simpl; try reflexivity.
    destruct (getLabel (labels tl) s); reflexivity.
  - destruct from as [| n | s |]; simpl; try reflexivity.
    destruct (getLabel (labels tl) s); reflexivity.
Qed.

Lemma coherent_reverse (now : num) (id : nat) (tl : Timeline) :
  coherent tl -> coherent (fst (reverse now id tl)).
Proof.
  intros H. unfold reverse. change (isPlaying (set_playDirection backward tl))
    with (isPlaying tl).
  destruct (isPlaying tl) eqn:E; cbn [negb fst].
  - unfold coherent, isPlaying, isPaused in *. simpl. exact H.
  - apply coherent_start.
    + destruct (_ >=? _)%num; reflexivity.
    + destruct (_ >=? _)%num; reflexivity.
Qed.

Lemma coherent_togglePlayPause (now : num) (id : nat) (tl : Timeline) :
  coherent tl -> coherent (fst (togglePlayPause now id tl)).
Proof.
  intros H. unfold togglePlayPause. destruct (isPlaying tl); [apply coherent_pause |].
  destruct (playDirection tl); [apply coherent_play | apply coherent_reverse]; exact H.
Qed.

(** The flags after [handleTimelineCompletion]: untouched, or those that
    [pause] sets. *)
Lemma flags_handleTimelineCompletion (time : num) (tl : Timeline) :
  let tl' := fst (handleTimelineCompletion time tl) in
  (isPlaying tl' = isPlaying tl /\ isPaused tl' = isPaused tl /\
   animationFrameId tl' = animationFrameId tl) \/
  (isPlaying tl' = false /\ isPaused tl' = true /\ animationFrameId tl' = None).
Proof.
  unfold handleTimelineCompletion, handleRepeatForward, handleRepeatBackward, pause.
  destruct (playDirection tl).
  - destruct (currentTime tl >=? _)%num; [| left; repeat split].
    destruct (shouldRepeat tl).
    + left. simpl. destruct (shouldYoyo tl); repeat split.
    + right. simpl. destruct (animationFrameId tl) eqn:E; simpl;
        repeat split; exact E.
  - destruct (currentTime tl <=? _)%num; [| left; repeat split].
    destruct (shouldRepeat tl); [left; repeat split |].
    right. simpl. destruct (animationFrameId tl) eqn:E; simpl;
      repeat split; exact E.
Qed.

Lemma coherent_runAnimations (time : num) (id : nat) (tl : Timeline) :
  coherent tl -> coherent (fst (runAnimations time id tl)).
Proof.
  intros H. unfold runAnimations.
  set (tl1 := match startTime tl with
              | Some s => if JS.truthy s then tl else set_startTime (Some time) tl
              | None => set_startTime (Some time) tl
              end).
  assert (H1 : coherent (calculateCurrentTime time tl1)).
  { subst tl1. destruct (startTime tl) as [s |]; [destruct (JS.truthy s) |]; exact H. }
  pose proof (flags_handleTimelineCompletion time (calculateCurrentTime time tl1)) as H2.
  destruct (handleTimelineCompletion time (calculateCurrentTime time tl1)) as [tl2 es3].
  cbv zeta in H2. cbn [fst] in H2. unfold requestNextFrame.
  destruct (isPlaying tl2) eqn:E; cbn [fst].
  - apply coherent_start; [exact E |].
    destruct H2 as [(Ha & Hb & _) | (Ha & _)]; [| congruence].
    rewrite Hb. apply H1. congruence.
  - destruct H2 as [(Ha & Hb & Hc) | (Ha & Hb & Hc)].
    + unfold coherent in *. rewrite E, Hb, Hc. rewrite <- Ha in H1. exact H1.
    + unfold coherent, is_Some. rewrite E, Hc. split; [split |]; intros X;
        try discriminate X. destruct X as [? X]. discriminate X.
Qed.

Lemma coherent_new (o : TimelineOptions.t) : coherent (new o).
Proof.
  unfold coherent, is_Some. simpl. split; [split |]; intros X; try discriminate X.
  destruct X as [? X]. discriminate X.
Qed.

Lemma coherent_perform (defaultEasing : Easing) (tl : Timeline) (a : action) :
  coherent tl -> coherent (perform defaultEasing tl a).
Proof.
  intros H. destruct a; cbn [perform].
  - exact H.
  - match goal with |- coherent (addLabel _ ?p _) => destruct p end; exact H.
  - apply coherent_play, H.
  - apply coherent_pause.
  - apply coherent_reverse, H.
  - apply coherent_togglePlayPause, H.
  - exact H.
  - unfold progress. destruct (_ || _); exact H.
  - exact H.
  - apply coherent_runAnimations, H.
Qed.

(** X3.  In every timeline reached from [new Timeline(o)] by calls of the
    public methods and by frames, a frame handle is stored exactly when
    the timeline is playing, and a playing timeline is never paused. *)
Theorem playing_iff_frame_pending (defaultEasing : Easing)
    (o : TimelineOptions.t) (actions : list action) :
  let tl := run defaultEasing o actions in
  (isPlaying tl = true <-> is_Some (animationFrameId tl)) /\
  (isPlaying tl = true -> isPaused tl = false).
Proof.
  induction actions as [| a actions IH] using rev_ind.
  - apply coherent_new.
  - cbv zeta in *. rewrite run_snoc. apply coherent_perform. exact IH.
Qed.


(** ** Pausing twice *)

(** X4.  [pause()] leaves the timeline not playing, paused and without a
    frame handle, keeps the playhead, and cancels the pending frame if
    there is one; a second [pause()] changes nothing and cancels nothing,
    since the handle is [null] by then. *)
Theorem pause_is_idempotent (tl : Timeline) :
  let tl' := fst (pause tl) in
  isPlaying tl' = false /\ isPaused tl' = true /\
  animationFrameId tl' = None /\
  currentTime tl' = currentTime tl /\
  snd (pause tl) = match animationFrameId tl with
                   | Some id => [CancelAnimFrame id]
                   | None => []
                   end /\
  pause tl' = (tl', []).
Proof.
  destruct tl. unfold pause. simpl.
  destruct animationFrameId0; simpl; repeat split.
Qed.

(** ** Seeking twice *)

Lemma setProperty_same (o : nat) (k : string) (v v' : num)
    (s : gmap nat (gmap string JS.num)) :
  setProperty o (k, v) (setProperty o (k, v') s) = setProperty o (k, v) s.
Proof.
  unfold setProperty. simpl.
  rewrite lookup_total_insert_eq, insert_insert_eq, insert_insert_eq.
  reflexivity.
Qed.

Lemma setProperty_commute (o o' : nat) (kv kv' : string * num)
    (s : gmap nat (gmap string JS.num)) :
  (o, fst kv) <> (o', fst kv') ->
  setProperty o kv (setProperty o' kv' s) = setProperty o' kv' (setProperty o kv s).
Proof.
  intros Hne. unfold setProperty.
  destruct (decide (o = o')) as [-> | Ho].
  - rewrite !lookup_total_insert_eq, !insert_insert_eq.
    f_equal. apply insert_insert_ne. congruence.
  - rewrite !lookup_total_insert_ne by congruence.
    apply insert_insert_ne. congruence.
Qed.

Lemma applyWrites_snoc (ws : list (nat * (string * num))) (w : nat * (string * num))
    (s : gmap nat (gmap string JS.num)) :
  applyWrites (ws ++ [w]) s = setProperty (fst w) (snd w) (applyWrites ws s).
Proof. unfold applyWrites. rewrite fold_left_app. reflexivity. Qed.

(** A write is not seen through a later write of the same property. *)
Lemma applyWrites_shadow (ws : list (nat * (string * num))) (o : nat)
    (k : string) (v v' : num) (s : gmap nat (gmap string JS.num)) :
  setProperty o (k, v) (applyWrites ws (setProperty o (k, v') s))
  = setProperty o (k, v) (applyWrites ws s).
Proof.
  revert s. induction ws as [| [o1 [k1 v1]] ws IH]; intros s.
  - apply setProperty_same.
  - change (applyWrites ((o1, (k1, v1)) :: ws) ?t)
      with (applyWrites ws (setProperty o1 (k1, v1) t)).
    destruct (decide ((o1, k1) = (o, k))) as [E | E].
    + injection E as -> ->. rewrite setProperty_same. reflexivity.
    + rewrite (setProperty_commute o1 o (k1, v1) (k, v')) by exact E.
      apply IH.
Qed.

(** Writes are absolute: making the same writes again changes nothing. *)
Lemma applyWrites_twice (ws : list (nat * (string * num)))
    (s : gmap nat (gmap string JS.num)) :
  applyWrites ws (applyWrites ws s) = applyWrites ws s.
Proof.
  induction ws as [| [o [k v]] ws IH] using rev_ind; [reflexivity |].
  rewrite !applyWrites_snoc. simpl.
  rewrite applyWrites_shadow. rewrite IH. reflexivity.
Qed.

Lemma applyWrites_app (ws ws' : list (nat * (string * num)))
    (s : gmap nat (gmap string JS.num)) :
  applyWrites (ws ++ ws') s = applyWrites ws' (applyWrites ws s).
Proof. unfold applyWrites. apply fold_left_app. Qed.

Lemma applyWrites_map (o : nat) (ws : list (string * num))
    (s : gmap nat (gmap string JS.num)) :
  applyWrites (map (pair o) ws) s
  = fold_left (fun st kv => setProperty o kv st) ws s.
Proof.
  revert s. induction ws as [| kv ws IH]; intros s; [reflexivity |].
  simpl. apply IH.
Qed.

Lemma deliverAll_storeWrites (tl : Timeline) (es : list event)
    (s : gmap nat (gmap string JS.num)) :
  deliverAll tl es s = applyWrites (storeWrites tl es) s.
Proof.
  revert s. induction es as [| e es IH]; intros s; [reflexivity |].
  unfold deliverAll in *. simpl fold_left. rewrite IH.
  unfold storeWrites. simpl flat_map. rewrite applyWrites_app. f_equal.
  unfold deliver. destruct e as [i x | | | |]; try reflexivity.
  destruct (animations tl !! i) as [a |]; [| reflexivity].
  destruct (AnimationOptions.onChange (options a)) as [tw |]; [| reflexivity].
  destruct (onChangeWrites (options a) tw x) as [ws |]; [| reflexivity].
  symmetry. apply applyWrites_map.
Qed.

(** X5.  Seeking is idempotent.  A second [seek(t)] right after the first
    returns the same timeline and makes the same [onChange] calls (a seek
    depends on no earlier seek), and since the tweens write values computed
    from the start values captured by [to], delivering those calls a
    second time leaves every object as it was after the first. *)
Theorem seek_twice (t t0 : num) (tl : Timeline)
    (store : gmap nat (gmap string JS.num)) :
  let '(tl', es) := seek t tl in
  seek t tl' = (tl', es) /\
  seek t (fst (seek t0 tl)) = (tl', es) /\
  deliverAll tl' es (deliverAll tl' es store) = deliverAll tl' es store.
Proof.
  destruct (seek t tl) as [tl' es] eqn:E.
  unfold seek in E. injection E as <- <-.
  split; [reflexivity |]. split; [reflexivity |].
  rewrite !deliverAll_storeWrites. apply applyWrites_twice.
Qed.


(** ** What a tween writes *)

Lemma applyWrites_other_object (ws : list (nat * (string * num))) (o : nat)
    (s : gmap nat (gmap string JS.num)) :
  Forall (fun w => fst w <> o) ws -> applyWrites ws s !! o = s !! o.
Proof.
  induction ws as [| w ws IH] using rev_ind; intros H; [reflexivity |].
  apply Forall_app in H. destruct H as [H Hw]. inversion_clear Hw as [| ? ? Hw' _].
  rewrite applyWrites_snoc. unfold setProperty.
  rewrite lookup_insert_ne by exact Hw'. apply IH, H.
Qed.

Lemma applyWrites_other_property (ws : list (nat * (string * num))) (o : nat)
    (k : string) (s : gmap nat (gmap string JS.num)) :
  Forall (fun w => fst (snd w) <> k) ws ->
  (applyWrites ws s !!! o : gmap string JS.num) !! k
  = (s !!! o : gmap string JS.num) !! k.
Proof.
  induction ws as [| w ws IH] using rev_ind; intros H; [reflexivity |].
  apply Forall_app in H. destruct H as [H Hw]. inversion_clear Hw as [| ? ? Hw' _].
  rewrite applyWrites_snoc. unfold setProperty.
  destruct (decide (fst w = o)) as [<- | Ho].
  - rewrite lookup_total_insert_eq, lookup_insert_ne by exact Hw'. apply IH, H.
  - rewrite lookup_total_insert_ne by exact Ho. apply IH, H.
Qed.

(** Reading [startValues] as [to] builds it gives the property of the
    target. *)
Lemma getProperty_startValues (m : gmap string JS.num) (k : string)
    (properties : list (string * jsval)) (v : num) :
  getProperty k (map (fun kv => (fst kv, m !! fst kv)) properties) = Some v ->
  m !! k = Some v /\ In k (map fst properties).
Proof.
  induction properties as [| [k' pv] ps IH]; simpl; [discriminate |].
  destruct (String.eqb_spec k' k) as [-> | Hne].
  - intros H. split; [exact H | left; reflexivity].
  - intros H. destruct (IH H) as [H1 H2]. split; [exact H1 | right; exact H2].
Qed.

(** The writes of the closure that [to] builds: each is of a property
    given to [to] that held a number on the target when [to] was called. *)
Lemma writes_of_to (defaultEasing : Easing)
    (store : gmap nat (gmap string JS.num)) (obj : nat)
    (properties : list (string * jsval)) (seconds : num) (pos : posval)
    (easing : option Easing) (tl : Timeline) (x : num) :
  exists ws,
    storeWrites (to defaultEasing store obj properties seconds pos easing tl)
                [OnChange (length (animations tl)) x]
    = map (pair obj) ws /\
    Forall (fun kv => In (fst kv) (map fst properties) /\
                      is_Some ((store !!! obj : gmap string JS.num) !! fst kv)) ws.
Proof.
  unfold storeWrites. cbn [flat_map]. unfold to. rewrite animations_add.
  rewrite lookup_app_r by reflexivity. rewrite Nat.sub_diag.
  cbn [lookup list_lookup options AnimationOptions.onChange
       AnimationOptions.easing onChangeWrites object].
  eexists. split; [apply app_nil_r |].
  apply Forall_forall. intros [k v] Hin.
  apply list_elem_of_omap in Hin.
  destruct Hin as ([k' ev] & _ & Hkv). simpl in Hkv.
  destruct (getProperty k' _) as [sv |] eqn:Hg; [| discriminate Hkv].
  destruct (asNumber ev); [| discriminate Hkv]. injection Hkv as <- _.
  apply getProperty_startValues in Hg. destruct Hg as [Hs Hk].
  simpl. split; [exact Hk | exists sv; exact Hs].
Qed.

(** X6.  A call of the [onChange] that [to] installs writes to the target
    of the tween only, and there only properties that were passed to [to]
    and held a number on the target when [to] was called: every other
    object and every other property is left as it is. *)
Theorem tween_writes_its_own_properties (defaultEasing : Easing)
    (store s : gmap nat (gmap string JS.num)) (obj : nat)
    (properties : list (string * jsval)) (seconds : num) (position : posval)
    (easing : option Easing) (tl : Timeline) (x : num) :
  let tl' := to defaultEasing store obj properties seconds position easing tl in
  let s' := deliverAll tl' [OnChange (length (animations tl)) x] s in
  (forall o, o <> obj -> s' !! o = s !! o) /\
  (forall k, ~ In k (map fst properties) ->
     (s' !!! obj : gmap string JS.num) !! k = (s !!! obj : gmap string JS.num) !! k) /\
  (forall k, (store !!! obj : gmap string JS.num) !! k = None ->
     (s' !!! obj : gmap string JS.num) !! k = (s !!! obj : gmap string JS.num) !! k).
Proof.
  intros tl' s'. subst s' tl'. rewrite deliverAll_storeWrites.
  destruct (writes_of_to defaultEasing store obj properties seconds position
              easing tl x) as (ws & -> & Hws).
  rewrite List.Forall_forall in Hws.
  split; [| split].
  - intros o Ho. apply applyWrites_other_object.
    apply List.Forall_forall. intros w Hw. apply in_map_iff in Hw.
    destruct Hw as (kv & <- & _). simpl. congruence.
  - intros k Hk. apply applyWrites_other_property.
    apply List.Forall_forall. intros w Hw. apply in_map_iff in Hw.
    destruct Hw as (kv & <- & Hkv). simpl. intros E. subst k.
    apply Hk. apply (Hws kv Hkv).
  - intros k Hk. apply applyWrites_other_property.
    apply List.Forall_forall. intros w Hw. apply in_map_iff in Hw.
    destruct Hw as (kv & <- & Hkv). simpl. intros E. subst k.
    destruct (Hws kv Hkv) as [_ [v Hv]]. congruence.
Qed.


(** ** Frames *)

Lemma Qtrunc_nonpos (q : Q) : (q <= 0)%Q -> JS.Qtrunc q = (- Qfloor (- q))%Z.
Proof.
  destruct q as [n m]. unfold Qle, JS.Qtrunc, Qfloor. simpl. intros H.
  rewrite <- (Z.opp_involutive n) at 1.
  rewrite Z.quot_opp_l by lia. f_equal.
  apply Z.quot_div_nonneg; lia.
Qed.

Lemma Qdiv_mult_cancel (x y : Q) : (0 < y)%Q -> (y * (x / y) == x)%Q.
Proof. intros H. field. lra. Qed.

(** The remainder of [%] by a positive divisor stays below the divisor. *)
Lemma rem_lt (x y : Q) :
  (0 < y)%Q -> exists z, JS.rem (JS.Fin x) (JS.Fin y) = JS.Fin z /\ (z < y)%Q.
Proof.
  intros Hy. unfold JS.rem. case_Qeq y 0%Q; [lra |].
  eexists. split; [reflexivity |].
  pose proof (Qdiv_mult_cancel x y Hy) as Hxy.
  destruct (Qlt_le_dec x 0) as [Hx | Hx].
  - assert (Hq : (x / y <= 0)%Q).
    { apply Qle_shift_div_r; [exact Hy | lra]. }
    rewrite (Qtrunc_nonpos _ Hq). rewrite inject_Z_opp.
    pose proof (Qfloor_le (- (x / y))) as Hf.
    assert (y * (x / y) <= y * - inject_Z (Qfloor (- (x / y))))%Q.
    { apply Qmult_le_l; [exact Hy | lra]. }
    lra.
  - rewrite (Qtrunc_nonneg _ (Qdiv_nonneg x y Hx Hy)).
    pose proof (Qlt_floor (x / y)) as Hf. rewrite inject_Z_plus in Hf.
    assert (y * (x / y) < y * (inject_Z (Qfloor (x / y)) + inject_Z 1))%Q.
    { apply Qmult_lt_l; [exact Hy | exact Hf]. }
    change (inject_Z 1) with 1%Q in *. lra.
Qed.

Lemma forEachFrom_forallb (P : event -> bool) (body : nat -> Animation -> list event)
    (k : nat) (l : list Animation) :
  (forall i a, forallb P (body i a) = true) ->
  forallb P (forEachFrom k body l) = true.
Proof.
  intros H. revert k. induction l as [| b l IH]; intros k; [reflexivity |].
  simpl. rewrite forallb_app, H, IH. reflexivity.
Qed.

Lemma processAnimations_isOnChange (tl : Timeline) :
  forallb isOnChange (processAnimations tl) = true.
Proof.
  apply forEachFrom_forallb. intros i a. unfold processAnimation, callOnChange.
  destruct (_ && _); [| reflexivity].
  destruct (AnimationOptions.onChange (options a)); reflexivity.
Qed.

Lemma filter_isCall_isOnChange (es : list event) :
  forallb isOnChange es = true -> List.filter isCall es = [].
Proof.
  induction es as [| e es IH]; [reflexivity |]. simpl.
  destruct e; simpl; try discriminate. exact IH.
Qed.

Lemma filter_isRequest_isOnChange (es : list event) :
  forallb isOnChange es = true -> List.filter isRequest es = [].
Proof.
  induction es as [| e es IH]; [reflexivity |]. simpl.
  destruct e; simpl; try discriminate. exact IH.
Qed.

Lemma filter_isCall_call (c : option Callback) : List.filter isCall (call c) = call c.
Proof. destruct c; reflexivity. Qed.

(** The anchor that a frame uses: [startTime], or the time of the frame
    when [startTime] is [null], 0 or [NaN]. *)
Lemma frame_anchor (t : Q) (tl : Timeline) :
  exists s,
    match startTime tl with
    | Some s => if JS.truthy s then tl else set_startTime (Some (JS.Fin t)) tl
    | None => set_startTime (Some (JS.Fin t)) tl
    end = set_startTime (Some (JS.Fin s)) tl /\
    (s = t \/ (startTime tl = Some (JS.Fin s) /\ ~ (s == 0)%Q)).
Proof.
  destruct tl as [an la ct du ip pd st ipa rp rd rc sy c1 c2 c3 c4 af].
  destruct st as [[| s] |]; simpl.
  - exists t. split; [reflexivity | left; reflexivity].
  - case_Qeq s 0%Q; simpl.
    + exists t. split; [reflexivity | left; reflexivity].
    + exists s. split; [reflexivity | right; split; [reflexivity | assumption]].
  - exists t. split; [reflexivity | left; reflexivity].
Qed.

(** X7.  With a [repeat] other than 0, playing forward without yoyo, no
    frame ends a cycle: the playhead is the elapsed time modulo the cycle
    duration, always below [duration + repeatDelay * 1000], so
    [handleTimelineCompletion] finds nothing to do.  The frame counts no
    repeat, calls neither [onRepeat] nor [onComplete] (only [onUpdate]),
    keeps the direction and the flags, and a playing timeline requests the
    next frame: it loops whatever the repeat budget is. *)
Theorem forward_repeat_never_completes (tl : Timeline) (t d r : Q) (id : nat) :
  duration tl = JS.Fin d ->
  repeatDelay tl = JS.Fin r ->
  (0 < d + r * 1000)%Q ->
  JS.eqb (repeat tl) (JS.Fin 0) = false ->
  playDirection tl = forward ->
  shouldYoyo tl = false ->
  let tl' := fst (runAnimations (JS.Fin t) id tl) in
  let es := snd (runAnimations (JS.Fin t) id tl) in
  (exists c, currentTime tl' = JS.Fin c /\ (c < d + r * 1000)%Q) /\
  repeatCount tl' = repeatCount tl /\
  playDirection tl' = forward /\
  isPlaying tl' = isPlaying tl /\
  isPaused tl' = isPaused tl /\
  List.filter isCall es = call (onUpdateCallback tl) /\
  List.filter isRequest es = if isPlaying tl then [RequestAnimFrame id] else [].
Proof.
  intros Hd Hr Hcd Hrep Hdir Hyoyo. cbv zeta. unfold runAnimations.
  destruct (frame_anchor t tl) as (s & -> & _).
  set (tl1 := set_startTime (Some (JS.Fin s)) tl).
  destruct (rem_lt (t - s) (d + r * 1000) Hcd) as (z & Hz & Hlt).
  assert (Hc : calculateCurrentTime (JS.Fin t) tl1 = set_currentTime (JS.Fin z) tl1).
  { unfold calculateCurrentTime. subst tl1. simpl.
    rewrite Hrep, Hyoyo, Hdir, Hd, Hr. simpl. simpl in Hz. rewrite Hz. reflexivity. }
  rewrite Hc. set (tl2 := set_currentTime (JS.Fin z) tl1).
  assert (Hh : handleTimelineCompletion (JS.Fin t) tl2 = (tl2, [])).
  { unfold handleTimelineCompletion. subst tl2 tl1. simpl.
    rewrite Hdir, Hd, Hr. simpl.
    case_Qle (d + r * 1000)%Q z; [lra | reflexivity]. }
  rewrite Hh. unfold requestNextFrame.
  change (isPlaying tl2) with (isPlaying tl).
  assert (Hes : forall es4 : list event,
             List.filter isCall (processAnimations tl2 ++ handleTimelineUpdate tl2 ++ [] ++ es4)
             = call (onUpdateCallback tl) ++ List.filter isCall es4).
  { intros es4. rewrite !List.filter_app.
    rewrite (filter_isCall_isOnChange _ (processAnimations_isOnChange tl2)).
    unfold handleTimelineUpdate. rewrite filter_isCall_call. reflexivity. }
  assert (Her : forall es4 : list event,
             List.filter isRequest (processAnimations tl2 ++ handleTimelineUpdate tl2 ++ [] ++ es4)
             = List.filter isRequest es4).
  { intros es4. rewrite !List.filter_app.
    rewrite (filter_isRequest_isOnChange _ (processAnimations_isOnChange tl2)).
    unfold handleTimelineUpdate.
    destruct (onUpdateCallback tl2); reflexivity. }
  destruct (isPlaying tl) eqn:Ep; cbn [fst snd].
  - rewrite Hes, Her. simpl. rewrite app_nil_r.
    repeat split; try assumption. exists z. split; [reflexivity | exact Hlt].
  - rewrite Hes, Her. simpl. rewrite app_nil_r.
    repeat split; try assumption. exists z. split; [reflexivity | exact Hlt].
Qed.


Lemma forward_repeat_never_completes_witness :
  repeatCount (fst (runAnimations (JS.Fin 2600) 2 Sample.repeatTwice))
  = repeatCount Sample.repeatTwice /\
  isPlaying (fst (runAnimations (JS.Fin 2600) 2 Sample.repeatTwice)) = true /\
  List.filter isCall (snd (runAnimations (JS.Fin 2600) 2 Sample.repeatTwice))
  = [Call (Host 2)].
Proof.
  destruct (forward_repeat_never_completes Sample.repeatTwice 2600 1000 0 2
              eq_refl eq_refl eq_refl eq_refl eq_refl eq_refl)
    as (_ & H2 & _ & H4 & _ & H6 & _).
  split; [exact H2 |]. split; [exact H4 | exact H6].
Defined.

Lemma shouldRepeat_without_repeat (tl : Timeline) (c : Q) :
  JS.eqb (repeat tl) (JS.Fin 0) = true ->
  repeatCount tl = JS.Fin c -> (0 <= c)%Q ->
  shouldRepeat tl = false.
Proof.
  intros Hrep Hc Hc0. unfold shouldRepeat. rewrite Hc.
  destruct (repeat tl) as [| rp]; [discriminate Hrep |].
  simpl in *. apply Qeq_bool_iff in Hrep.
  case_Qle rp c; simpl; [| lra].
  case_Qeq rp (-1)%Q; [lra | reflexivity].
Qed.

(** X8.  Without repeat, playing forward from a non-zero anchor [s]: a
    frame at [t] puts the playhead at [t - s], unclamped.  Before the end
    ([t - s < duration + repeatDelay * 1000]) it calls [onUpdate] only and
    a playing timeline requests the next frame.  From the end on it pauses
    the timeline (not playing, paused, no frame handle), calls [onUpdate]
    and then [onComplete], and requests no further frame; the playhead
    stays where the frame put it, possibly past the duration. *)
Theorem forward_frame_without_repeat (tl : Timeline) (t s d r c : Q) (id : nat) :
  startTime tl = Some (JS.Fin s) -> ~ (s == 0)%Q ->
  duration tl = JS.Fin d ->
  repeatDelay tl = JS.Fin r ->
  JS.eqb (repeat tl) (JS.Fin 0) = true ->
  repeatCount tl = JS.Fin c -> (0 <= c)%Q ->
  playDirection tl = forward ->
  let tl' := fst (runAnimations (JS.Fin t) id tl) in
  let es := snd (runAnimations (JS.Fin t) id tl) in
  currentTime tl' = JS.Fin (t - s) /\
  ((t - s < d + r * 1000)%Q ->
     isPlaying tl' = isPlaying tl /\ isPaused tl' = isPaused tl /\
     List.filter isCall es = call (onUpdateCallback tl) /\
     List.filter isRequest es = if isPlaying tl then [RequestAnimFrame id] else []) /\
  ((d + r * 1000 <= t - s)%Q ->
     isPlaying tl' = false /\ isPaused tl' = true /\
     animationFrameId tl' = None /\
     List.filter isCall es
     = call (onUpdateCallback tl) ++ call (onCompleteCallback tl) /\
     List.filter isRequest es = []).
Proof.
  intros Hs Hs0 Hd Hr Hrep Hc Hc0 Hdir. cbv zeta. unfold runAnimations.
  rewrite Hs. simpl JS.truthy.
  apply Qeq_bool_false in Hs0. rewrite Hs0. simpl negb. cbv iota.
  assert (Hcalc : calculateCurrentTime (JS.Fin t) tl
                  = set_currentTime (JS.Fin (t - s)) tl).
  { unfold calculateCurrentTime. rewrite Hs, Hrep, Hdir. reflexivity. }
  rewrite Hcalc. set (tl2 := set_currentTime (JS.Fin (t - s)) tl).
  pose proof (processAnimations_isOnChange tl2) as Hp.
  pose proof (filter_isCall_isOnChange _ Hp) as Hp1.
  pose proof (filter_isRequest_isOnChange _ Hp) as Hp2.
  assert (Hsr : shouldRepeat tl2 = false)
    by (apply (shouldRepeat_without_repeat tl2 c); assumption).
  unfold handleTimelineCompletion.
  change (playDirection tl2) with (playDirection tl). rewrite Hdir.
  change (duration tl2) with (duration tl). rewrite Hd.
  change (repeatDelay tl2) with (repeatDelay tl). rewrite Hr.
  change (currentTime tl2) with (JS.Num (JS.Fin (t - s))). cbn [JS.ToNumber].
  rewrite Hsr. unfold JS.geb, JS.leb, JS.add, JS.mul, JS.lift2.
  unfold handleTimelineUpdate, requestNextFrame.
  case_Qle (d + r * 1000)%Q (t - s)%Q.
  - unfold pause. simpl animationFrameId.
    destruct (animationFrameId tl) as [fid |] eqn:Ef; cbn [fst snd isPlaying
      isPlayingInternal set_animationFrameId set_isPausedInternal
      set_isPlayingInternal isPaused isPausedInternal currentTime tl2
      set_currentTime animationFrameId onCompleteCallback onUpdateCallback].
    all: split; [reflexivity |]; split; [intros; lra |]; intros _.
    all: rewrite !List.filter_app, Hp1, Hp2, !filter_isCall_call.
    all: repeat split; try exact Ef.
    all: subst tl2; simpl.
    all: destruct (onUpdateCallback tl), (onCompleteCallback tl); reflexivity.
  - change (isPlaying tl2) with (isPlaying tl).
    destruct (isPlaying tl) eqn:Ep; cbn [fst snd].
    all: split; [reflexivity |]; split; [intros _ | intros; lra].
    all: rewrite !List.filter_app, Hp1, Hp2, !filter_isCall_call.
    all: repeat split; try exact Ep.
    all: subst tl2; simpl.
    all: destruct (onUpdateCallback tl); reflexivity.
Qed.


Lemma forward_frame_without_repeat_witness :
  isPlaying (fst (runAnimations (JS.Fin 1200) 2 Sample.playingOnce)) = false /\
  isPaused (fst (runAnimations (JS.Fin 1200) 2 Sample.playingOnce)) = true /\
  List.filter isCall (snd (runAnimations (JS.Fin 1200) 2 Sample.playingOnce))
  = [Call (Host 2); Call (Host 1)].
Proof.
  assert (Hs0 : ~ (100 == 0)%Q) by discriminate.
  assert (Hc0 : (0 <= 0)%Q) by discriminate.
  assert (Hend : (1000 + 0 * 1000 <= 1200 - 100)%Q) by discriminate.
  destruct (forward_frame_without_repeat Sample.playingOnce 1200 100 1000 0 0 2
              eq_refl Hs0 eq_refl eq_refl eq_refl eq_refl Hc0 eq_refl)
    as (_ & _ & H).
  destruct (H Hend) as (H1 & H2 & _ & H4 & _).
  split; [exact H1 |]. split; [exact H2 | exact H4].
Defined.

(** ** Resuming *)

(** X9.  Resuming continues from the playhead.  On a timeline without
    repeat that is not playing, with the playhead at [c]: after [play()]
    at the time [now] the frame at [t] puts the playhead at
    [c + (t - now)]; after [reverse()] at [now] it puts it at
    [max(0, c' - (t - now))], where [c'] is [c] brought back to the
    duration when it is past it.  Both need the anchor that the method
    computes to be other than 0. *)
Theorem resume_continues_from_the_playhead (tl : Timeline) (now t c d : Q)
    (id id' : nat) :
  isPlaying tl = false ->
  currentTime tl = JS.Fin c ->
  duration tl = JS.Fin d ->
  JS.eqb (repeat tl) (JS.Fin 0) = true ->
  (~ (now - c == 0)%Q ->
   currentTime (fst (runAnimations (JS.Fin t) id'
                       (fst (play PUndefined (JS.Fin now) id tl))))
   ==n JS.Fin (c + (t - now))) /\
  (~ (now - (d - Qmin c d) == 0)%Q ->
   currentTime (fst (runAnimations (JS.Fin t) id'
                       (fst (reverse (JS.Fin now) id tl))))
   ==n JS.Fin (Qmax 0 (Qmin c d - (t - now)))).
Proof.
  intros Hp Hc Hd Hrep. split; intros Hs0; rewrite currentTime_runAnimations.
  - unfold play. rewrite Hp. simpl. rewrite Hc. simpl.
    apply Qeq_bool_false in Hs0. rewrite Hs0. simpl.
    unfold calculateCurrentTime. simpl. rewrite Hrep. simpl.
    unfold JS.num_eq. ring.
  - unfold reverse. unfold isPlaying in *. simpl. rewrite Hp. simpl.
    rewrite Hc, Hd. simpl.
    destruct (Q.min_spec c d) as [[Hlt Hm] | [Hle Hm]].
    + case_Qle d c; [lra |]. simpl. rewrite Hc, Hd. simpl.
      assert (Hz : Qeq_bool (now - (d - c)) 0 = false).
      { apply Qeq_bool_false. intros H. apply Hs0. rewrite Hm. exact H. }
      rewrite Hz. simpl. unfold calculateCurrentTime. simpl.
      rewrite Hrep, Hd. simpl. apply max_zero. rewrite Hm. ring.
    + case_Qle d c; [| lra]. simpl. rewrite Hd. simpl.
      assert (Hz : Qeq_bool (now - (d - d)) 0 = false).
      { apply Qeq_bool_false. intros H. apply Hs0. rewrite Hm. exact H. }
      rewrite Hz. simpl. unfold calculateCurrentTime. simpl.
      rewrite Hrep, Hd. simpl. apply max_zero. rewrite Hm. ring.
Qed.


Lemma resume_continues_from_the_playhead_witness :
  currentTime (fst (runAnimations (JS.Fin 5016) 2
                      (fst (play PUndefined (JS.Fin 5000) 1 Sample.soughtHalf))))
  ==n JS.Fin ((1000 # 2) + (5016 - 5000)) /\
  currentTime (fst (runAnimations (JS.Fin 5016) 2
                      (fst (reverse (JS.Fin 5000) 1 Sample.soughtHalf))))
  ==n JS.Fin (Qmax 0 (Qmin (1000 # 2) 2000 - (5016 - 5000))).
Proof.
  destruct (resume_continues_from_the_playhead Sample.soughtHalf 5000 5016
              (1000 # 2) 2000 1 2 eq_refl eq_refl eq_refl eq_refl) as [H1 H2].
  split; [apply H1 | apply H2]; intros H; vm_compute in H; discriminate H.
Defined.

(** The remainder of a zero dividend, and its cycle number. *)
Lemma rem_of_zero (x y : Q) :
  (x == 0)%Q -> (0 < y)%Q ->
  exists z, JS.rem (JS.Fin x) (JS.Fin y) = JS.Fin z /\ (z == 0)%Q /\
            JS.floor (JS.Fin x / JS.Fin y) = JS.Fin (inject_Z 0).
Proof.
  intros Hx Hy.
  assert (Hq : (x / y == 0)%Q) by (rewrite Hx; field; lra).
  assert (Hf : Qfloor (x / y) = 0%Z) by (rewrite Hq; reflexivity).
  rewrite rem_nonneg by lra. eexists. split; [reflexivity |]. split.
  - rewrite Hf, Hx. simpl. ring.
  - unfold JS.div. case_Qeq y 0%Q; [lra |].
    change (JS.floor (JS.Fin (x / y))) with (JS.Fin (inject_Z (Qfloor (x / y)))).
    rewrite Hf. reflexivity.
Qed.

(** X10.  [play(from)] with an argument clears the anchor and the repeat
    counter and moves the playhead: to [from * 1000] for a number; for a
    string to what the label table answers, that is the time of a label,
    the member of [Object.prototype] of that name when no label shadows
    it, and 0 when the table has nothing.  On a timeline whose cycle
    duration [duration + repeatDelay * 1000] is positive the first frame
    does not start from there: it anchors the loop at its own timestamp,
    the elapsed time is 0, and the playhead is back at 0 whatever [from]
    was. *)
Theorem play_from_restarts_at_zero (tl : Timeline) (from : posval)
    (now : num) (t d r : Q) (id id' : nat) :
  isPlaying tl = false ->
  from <> PUndefined ->
  duration tl = JS.Fin d ->
  repeatDelay tl = JS.Fin r ->
  (0 < d + r * 1000)%Q ->
  let tl1 := fst (play from now id tl) in
  startTime tl1 = None /\
  repeatCount tl1 = JS.Fin 0 /\
  currentTime tl1
  = match from with
    | PNumber n => JS.Num (n * JS.Fin 1000)%num
    | PString s =>
        match labels tl !! s with
        | Some n => if String.eqb s "__proto__" then JS.Obj else JS.Num n
        | None => if inherited s then JS.Obj else JS.Num (JS.Fin 0)
        end
    | PObject => JS.Num (JS.Fin 0)
    | PUndefined => currentTime tl
    end /\
  currentTime (fst (runAnimations (JS.Fin t) id' tl1)) ==n JS.Fin 0.
Proof.
  intros Hp Hfrom Hd Hr Hcd tl1.
  assert (H1 : startTime tl1 = None /\ repeatCount tl1 = JS.Fin 0 /\
               playDirection tl1 = forward /\ duration tl1 = JS.Fin d /\
               repeatDelay tl1 = JS.Fin r /\ repeat tl1 = repeat tl /\
               shouldYoyo tl1 = shouldYoyo tl).
  { subst tl1. unfold play. rewrite Hp.
    destruct from as [| n | s |]; [contradiction | | |]; simpl.
    - repeat split; assumption.
    - destruct (getLabel (labels tl) s); simpl; repeat split; assumption.
    - repeat split; assumption. }
  destruct H1 as (Hst & Hrc & Hdir & Hd1 & Hr1 & Hrep1 & Hy1).
  split; [exact Hst |]. split; [exact Hrc |]. split.
  { subst tl1. unfold play. rewrite Hp.
    destruct from as [| n | s |]; [contradiction | reflexivity | | reflexivity].
    simpl. unfold getLabel.
    destruct (String.eqb_spec s "__proto__") as [-> | Hs].
    - destruct (labels tl !! "__proto__"); reflexivity.
    - destruct (labels tl !! s); [reflexivity |].
      destruct (inherited s); reflexivity. }
  rewrite currentTime_runAnimations, Hst.
  unfold calculateCurrentTime.
  cbn [startTime set_startTime JS.nullish repeat duration repeatDelay shouldYoyo
       playDirection currentTime set_currentTime JS.ToNumber].
  rewrite Hdir, Hd1, Hr1.
  change (JS.Fin t - JS.Fin t)%num with (JS.Fin (t - t)).
  change (JS.Fin d + JS.Fin r * JS.Fin 1000)%num with (JS.Fin (d + r * 1000)).
  destruct (JS.eqb (repeat tl1) (JS.Fin 0)); cbn [negb JS.ToNumber].
  - unfold JS.num_eq. ring.
  - destruct (rem_of_zero (t - t) (d + r * 1000)) as (z & Hz & Hz0 & Hfl);
      [ring | exact Hcd |].
    rewrite Hz, Hfl. rewrite rem_two_is_one. simpl Z.eqb. cbv iota.
    destruct (shouldYoyo tl1); exact Hz0.
Qed.

Lemma play_from_restarts_at_zero_witness :
  currentTime (fst (play (PString "mid") (JS.Fin 5000) 1 Sample.labelAtEnd))
  = JS.Num (JS.Fin 2000) /\
  currentTime (fst (play (PString "toString") (JS.Fin 5000) 1 Sample.labelAtEnd))
  = JS.Obj /\
  currentTime (fst (play (PString "nowhere") (JS.Fin 5000) 1 Sample.labelAtEnd))
  = JS.Num (JS.Fin 0) /\
  currentTime (fst (runAnimations (JS.Fin 5016) 2
                      (fst (play (PString "toString") (JS.Fin 5000) 1
                              Sample.labelAtEnd))))
  ==n JS.Fin 0.
Proof.
  assert (Hcd : (0 < 2000 + 0 * 1000)%Q) by reflexivity.
  assert (H : forall s,
             PString s <> PUndefined) by (intros s; discriminate).
  split; [| split; [| split]].
  - exact (proj1 (proj2 (proj2
      (play_from_restarts_at_zero Sample.labelAtEnd (PString "mid")
         (JS.Fin 5000) 5016 2000 0 1 2 eq_refl (H _) eq_refl eq_refl Hcd)))).
  - exact (proj1 (proj2 (proj2
      (play_from_restarts_at_zero Sample.labelAtEnd (PString "toString")
         (JS.Fin 5000) 5016 2000 0 1 2 eq_refl (H _) eq_refl eq_refl Hcd)))).
  - exact (proj1 (proj2 (proj2
      (play_from_restarts_at_zero Sample.labelAtEnd (PString "nowhere")
         (JS.Fin 5000) 5016 2000 0 1 2 eq_refl (H _) eq_refl eq_refl Hcd)))).
  - exact (proj2 (proj2 (proj2
      (play_from_restarts_at_zero Sample.labelAtEnd (PString "toString")
         (JS.Fin 5000) 5016 2000 0 1 2 eq_refl (H _) eq_refl eq_refl Hcd)))).
Defined.

(** ** Toggling *)

(** X11.  [togglePlayPause()] always flips [isPlaying], leaves [isPaused]
    the opposite of the new [isPlaying], and keeps the direction: a
    playing timeline is paused without a new frame, a timeline that is not
    playing resumes in its direction ([play()] forward, [reverse()]
    backward) and requests one frame. *)
Theorem togglePlayPause_flips (now : num) (id : nat) (tl : Timeline) :
  let tl' := fst (togglePlayPause now id tl) in
  let es := snd (togglePlayPause now id tl) in
  isPlaying tl' = negb (isPlaying tl) /\
  isPaused tl' = isPlaying tl /\
  playDirection tl' = playDirection tl /\
  List.filter isRequest es = (if isPlaying tl then [] else [RequestAnimFrame id]) /\
  List.filter isCall es = [].
Proof.
  cbv zeta. unfold togglePlayPause.
  destruct (isPlaying tl) eqn:Ep.
  - unfold pause. simpl. destruct (animationFrameId tl); repeat split.
  - destruct (playDirection tl) eqn:Ed.
    + unfold play. rewrite Ep. repeat split.
    + unfold reverse. unfold isPlaying in *. simpl. rewrite Ep. simpl.
      destruct (currentTime tl >=? duration tl)%num; repeat split.
Qed.

(** ** Labels *)

Lemma plainName_falls_through (s : string) :
  plainName s = true ->
  String.eqb s ">" = false /\ String.eqb s "<" = false /\
  Text.matchRelativePosition s = None /\
  (Text.startsWith "+" s || Text.startsWith "-" s) && Text.includes "=" s = false.
Proof.
  destruct s as [| c r]; [intros _; repeat split |].
  unfold plainName. intros H. apply negb_true_iff in H.
  apply orb_false_iff in H. destruct H as [H Hm].
  apply orb_false_iff in H. destruct H as [H Hp].
  apply orb_false_iff in H. destruct H as [Hl Hg].
  unfold Text.matchRelativePosition, Text.startsWith.
  rewrite (Ascii.eqb_sym "+" c), (Ascii.eqb_sym "-" c).
  simpl String.eqb. rewrite Hl, Hg, Hp, Hm. repeat split.
Qed.

Lemma getLabel_setLabel (label : string) (v : num) (m : gmap string JS.num) :
  label <> "__proto__" ->
  getLabel (setLabel label v m) label = Some (JS.Num v).
Proof.
  intros H. apply String.eqb_neq in H. unfold getLabel, setLabel.
  rewrite H, lookup_insert_eq. reflexivity.
Qed.

Lemma getLabel_setLabel_ne (label other : string) (v : num)
    (m : gmap string JS.num) :
  other <> label ->
  getLabel (setLabel label v m) other = getLabel m other.
Proof.
  intros H. unfold getLabel, setLabel.
  destruct (String.eqb label "__proto__"); [reflexivity |].
  rewrite lookup_insert_ne by congruence. reflexivity.
Qed.

(** X12.  Labels round trip.  For a name other than [__proto__],
    [addLabel(label, n)] makes the label table answer [n * 1000] under
    [label], also when the name is one of [Object.prototype], and changes
    the answer for no other name; without a number (no position, or a
    string) it stores the current duration.  [play(label)] on a timeline
    that is not playing then moves the playhead to the stored time, 0
    included.  As the position of an entry, a label whose name does not
    start with [<], [>], [+] or [-] resolves to the stored time when that
    time is truthy, and to nothing when it is 0 or [NaN].  Under the name
    [__proto__] nothing is stored: the table is as before and still
    answers its prototype. *)
Theorem labels_round_trip (label : string) (n now : num) (id : nat)
    (tl : Timeline) :
  (label <> "__proto__" ->
   let tl' := addLabel label (PNumber n) tl in
   getLabel (labels tl') label = Some (JS.Num (n * JS.Fin 1000)%num) /\
   (forall other, other <> label ->
      getLabel (labels tl') other = getLabel (labels tl) other) /\
   (forall s,
      getLabel (labels (addLabel label PUndefined tl)) label
      = Some (JS.Num (duration tl)) /\
      getLabel (labels (addLabel label (PString s) tl)) label
      = Some (JS.Num (duration tl))) /\
   (isPlaying tl = false ->
    currentTime (fst (play (PString label) now id tl'))
    = JS.Num (n * JS.Fin 1000)%num) /\
   (plainName label = true ->
    resolvePosition (PString label) tl'
    = if JS.truthy (n * JS.Fin 1000)%num
      then Some (JS.Num (n * JS.Fin 1000)%num) else None)) /\
  (forall p,
     labels (addLabel "__proto__" p tl) = labels tl /\
     getLabel (labels (addLabel "__proto__" p tl)) "__proto__" = Some JS.Obj).
Proof.
  split.
  - intros Hne. cbv zeta.
    split; [apply getLabel_setLabel; exact Hne |]. split.
    { intros other Ho. apply getLabel_setLabel_ne. exact Ho. }
    split.
    { intros s. split; apply getLabel_setLabel; exact Hne. }
    split.
    + intros Hp. unfold play.
      change (isPlaying (addLabel label (PNumber n) tl)) with (isPlaying tl).
      rewrite Hp. simpl. rewrite (getLabel_setLabel _ _ _ Hne). reflexivity.
    + intros Hn. destruct (plainName_falls_through label Hn) as (H1 & H2 & H3 & H4).
      unfold resolvePosition. rewrite H1, H2, H3, H4. simpl.
      rewrite (getLabel_setLabel _ _ _ Hne). reflexivity.
  - intros p. split; [destruct p; reflexivity | reflexivity].
Qed.

Lemma labels_round_trip_witness :
  getLabel (labels (addLabel "constructor" (PNumber (JS.Fin 0)) Sample.twoSeconds))
           "constructor"
  = Some (JS.Num (JS.Fin 0 * JS.Fin 1000)%num) /\
  currentTime (fst (play (PString "constructor") (JS.Fin 5000) 1
                      (addLabel "constructor" (PNumber (JS.Fin 0)) Sample.twoSeconds)))
  = JS.Num (JS.Fin 0 * JS.Fin 1000)%num /\
  resolvePosition (PString "constructor")
    (addLabel "constructor" (PNumber (JS.Fin 0)) Sample.twoSeconds)
  = None.
Proof.
  assert (Hne : "constructor" <> "__proto__") by discriminate.
  destruct (proj1 (labels_round_trip "constructor" (JS.Fin 0) (JS.Fin 5000) 1
                     Sample.twoSeconds) Hne)
    as (H1 & _ & _ & H4 & H5).
  split; [exact H1 |]. split; [exact (H4 eq_refl) | exact (H5 eq_refl)].
Defined.

(** X13.  A name for which the label table has nothing, neither a label
    nor a member of [Object.prototype]: [play(name)] on a timeline that is
    not playing starts from 0, and an entry added at such a name (not
    starting with [<], [>], [+] or [-]) is stored with an undefined
    position, which the duration counts at the running end: the duration
    grows by the duration of the entry. *)
Theorem unknown_label_falls_back (defaultEasing : Easing) (name : string)
    (now : num) (id : nat) (tl : Timeline)
    (store : gmap nat (gmap string JS.num)) (obj : nat)
    (properties : list (string * jsval)) (seconds : num) (easing : option Easing) :
  labels tl !! name = None ->
  inherited name = false ->
  (isPlaying tl = false ->
   currentTime (fst (play (PString name) now id tl)) = JS.Fin 0) /\
  (plainName name = true ->
   let tl' := to defaultEasing store obj properties seconds (PString name) easing tl in
   position <$> list.last (animations tl') = Some PUndefined /\
   (duration tl = scanDuration (animations tl) ->
    duration tl'
    = JS.max (duration tl)
        (duration tl + JS.falsy_or (Some (seconds * JS.Fin 1000)%num) (JS.Fin 0))%num)).
Proof.
  intros Hown Hinh.
  assert (Hl : getLabel (labels tl) name = None).
  { unfold getLabel. rewrite Hown, Hinh.
    destruct (String.eqb_spec name "__proto__") as [-> | _];
      [discriminate Hinh | reflexivity]. }
  split.
  - intros Hp. unfold play. rewrite Hp. simpl. rewrite Hl. reflexivity.
  - intros Hn. cbv zeta.
    destruct (plainName_falls_through name Hn) as (H1 & H2 & H3 & H4).
    assert (Hr : resolvePosition (PString name) tl = None).
    { unfold resolvePosition. rewrite H1, H2, H3, H4, Hl. reflexivity. }
    unfold to. rewrite animations_add, Hr. split.
    + rewrite last_snoc. reflexivity.
    + intros Hd. rewrite duration_add, animations_add, Hr.
      rewrite scanDuration_snoc, <- Hd. reflexivity.
Qed.

Lemma unknown_label_falls_back_witness :
  currentTime (fst (play (PString "nowhere") (JS.Fin 5000) 1 Sample.twoSeconds))
  = JS.Fin 0 /\
  position <$> list.last (animations Sample.atMissingLabel) = Some PUndefined.
Proof.
  destruct (unknown_label_falls_back Sample.linear "nowhere" (JS.Fin 5000) 1
              Sample.twoSeconds Sample.store Sample.rect
              [("top", VNumber (JS.Fin 50))] (JS.Fin 1) None eq_refl eq_refl)
    as [H1 _].
  destruct (unknown_label_falls_back Sample.linear "nowhere" (JS.Fin 5000) 1
              (Sample.moveLeft 1 PUndefined Sample.fresh) Sample.store Sample.rect
              [("top", VNumber (JS.Fin 50))] (JS.Fin 1) None eq_refl eq_refl)
    as [_ H2].
  split; [apply H1; reflexivity |].
  apply (H2 eq_refl).
Defined.

(** ** The duration as a maximum *)

(** X14.  When every entry has a number as position and as duration,
    the duration that [calculateDuration] computes is the latest end
    [position + duration] over the entries, and 0 when no entry ends
    after 0: it is not negative, no entry ends after it, and it is 0 or
    the end of an entry.  Appending an entry never makes it smaller. *)
Theorem duration_is_the_latest_end (l : list Animation) :
  Forall (fun a => exists p d, timed a p d) l ->
  exists D,
    scanDuration l = JS.Fin D /\
    (0 <= D)%Q /\
    (forall a p d, In a l -> timed a p d -> (p + d <= D)%Q) /\
    ((D == 0)%Q \/ exists a p d, In a l /\ timed a p d /\ (D == p + d)%Q) /\
    (forall a p d, timed a p d ->
       exists D', scanDuration (l ++ [a]) = JS.Fin D' /\ (D <= D')%Q).
Proof.
  assert (Hstep : forall D a p d, timed a p d ->
            exists D', durationStep (JS.Fin D) a = JS.Fin D' /\
                       ((D' == D)%Q /\ (p + d <= D)%Q \/
                        (D' == p + d)%Q /\ (D <= p + d)%Q)).
  { intros D a p d [Hp Hd]. unfold durationStep. rewrite Hp, Hd. simpl.
    split_comparisons; eexists; (split; [reflexivity |]); lra. }
  induction l as [| b l IH] using rev_ind; intros H.
  - exists 0%Q. split; [reflexivity |]. split; [lra |].
    split; [intros a p d [] |]. split; [left; reflexivity |].
    intros a p d Ht. destruct (Hstep 0%Q a p d Ht) as (D' & HD' & Hc).
    exists D'. split; [exact HD' | lra].
  - apply Forall_app in H. destruct H as [Hl Hb].
    inversion_clear Hb as [| ? ? (p & d & Hbt) _].
    destruct (IH Hl) as (D & HD & H0 & Hub & Hatt & _).
    destruct (Hstep D b p d Hbt) as (D' & HD' & Hc).
    exists D'. rewrite scanDuration_snoc, HD.
    split; [exact HD' |]. split; [lra |]. split; [| split].
    + intros a q e Hin Ht. apply in_app_or in Hin. destruct Hin as [Hin | [<- | []]].
      * specialize (Hub a q e Hin Ht). lra.
      * destruct Ht as [Hq He], Hbt as [Hp Hd].
        rewrite Hp in Hq. rewrite Hd in He.
        injection Hq as <-. injection He as <-. lra.
    + destruct Hc as [[Hc1 Hc2] | [Hc1 Hc2]].
      * destruct Hatt as [Hz | (a & q & e & Hin & Ht & He)].
        -- left. lra.
        -- right. exists a, q, e. split; [apply in_or_app; left; exact Hin |].
           split; [exact Ht | lra].
      * right. exists b, p, d. split; [apply in_or_app; right; left; reflexivity |].
        split; [exact Hbt | exact Hc1].
    + intros a q e Ht. rewrite scanDuration_snoc, scanDuration_snoc, HD, HD'.
      destruct (Hstep D' a q e Ht) as (D'' & HD'' & Hc').
      exists D''. split; [exact HD'' | lra].
Qed.

Lemma duration_is_the_latest_end_witness :
  exists D, scanDuration (animations Sample.halfSecondBack) = JS.Fin D /\ (0 <= D)%Q.
Proof.
  destruct (duration_is_the_latest_end (animations Sample.halfSecondBack))
    as (D & H1 & H2 & _).
  - repeat constructor; eexists; eexists; split; reflexivity.
  - exists D. split; assumption.
Defined.


(** ** The frame loop and the window of an entry *)

(** X15.  A frame evaluates an entry only inside its window.  For an
    entry that starts at [p] and lasts [d], with the playhead at [c]:
    inside [[p, p + d]] the frame loop calls its [onChange] with [c - p],
    the value that [seek] passes too; before [p] and after [p + d] the
    frame loop calls nothing, where [seek] passes 0 and [d].  A frame that
    lands past the end of an entry therefore does not bring it to its end
    state. *)
Theorem frame_calls_inside_the_window_only (tl : Timeline) (i : nat)
    (a : Animation) (c p d : Q) :
  currentTime tl = JS.Fin c ->
  isString (position a) = false ->
  resolveAnimationStartTime a = JS.Fin p ->
  JS.nullish (AnimationOptions.duration (options a)) (JS.Fin 0) = JS.Fin d ->
  ((p <= c <= p + d)%Q ->
     exists v, processAnimation tl i a = callOnChange i a v /\
               v ==n JS.Fin (c - p) /\ seekValue tl a ==n v) /\
  ((c < p)%Q ->
     processAnimation tl i a = [] /\ seekValue tl a = JS.Fin 0) /\
  ((p <= c)%Q -> (p + d < c)%Q ->
     processAnimation tl i a = [] /\ seekValue tl a = JS.Fin d).
Proof.
  intros Hc Hs Hp Hd.
  destruct (seekValue_cases tl a c p d Hc Hs Hp Hd) as (S1 & S2 & S3).
  assert (Hf : exists d', JS.falsy_or (AnimationOptions.duration (options a)) (JS.Fin 0)
                          = JS.Fin d' /\ (d' == d)%Q).
  { destruct (AnimationOptions.duration (options a)) as [[| q] |]; simpl in *.
    - discriminate Hd.
    - injection Hd as ->. case_Qeq d 0%Q; simpl; eexists; split; try reflexivity; lra.
    - injection Hd as <-. eexists; split; reflexivity. }
  destruct Hf as (d' & Hf & Hd').
  unfold processAnimation. rewrite Hp, Hf, Hc. simpl.
  split; [| split].
  - intros Hin. specialize (S2 Hin).
    split_comparisons; try lra.
    all: eexists; split; [reflexivity |]; split; [simpl; lra |].
    all: destruct (seekValue tl a); simpl in *; [contradiction | lra].
  - intros Hlt. split; [| exact (S1 Hlt)].
    split_comparisons; try reflexivity; lra.
  - intros H1 H2. split; [| exact (S3 H1 H2)].
    split_comparisons; try reflexivity; lra.
Qed.

Lemma frame_calls_inside_the_window_only_witness :
  processAnimation (set_currentTime (JS.Fin 1500) Sample.twoInSequence) 0
    Sample.orphan = [] /\
  seekValue (set_currentTime (JS.Fin 1500) Sample.twoInSequence) Sample.orphan
  = JS.Fin 1000.
Proof.
  destruct (frame_calls_inside_the_window_only
              (set_currentTime (JS.Fin 1500) Sample.twoInSequence) 0
              Sample.orphan 1500 0 1000 eq_refl eq_refl eq_refl eq_refl)
    as (_ & _ & H).
  apply H; [discriminate | reflexivity].
Defined.


(** ** The repeat counter *)

Lemma repeatCount_pause (tl : Timeline) :
  repeatCount (fst (pause tl)) = repeatCount tl.
Proof. unfold pause. simpl. destruct (animationFrameId tl); reflexivity. Qed.

Lemma repeatCount_play (from : posval) (now : num) (id : nat) (tl : Timeline) :
  repeatCount (fst (play from now id tl)) = repeatCount tl \/
  repeatCount (fst (play from now id tl)) = JS.Fin 0.
Proof.
  unfold play. destruct (isPlaying tl); [left; reflexivity |].
  destruct from as [| n | s |]; simpl; [left | right | right | right];
    try reflexivity.
  destruct (getLabel (labels tl) s); reflexivity.
Qed.

Lemma repeatCount_reverse (now : num) (id : nat) (tl : Timeline) :
  repeatCount (fst (reverse now id tl)) = repeatCount tl.
Proof.
  unfold reverse. simpl. destruct (isPlayingInternal tl); simpl; [reflexivity |].
  destruct (currentTime tl >=? duration tl)%num; reflexivity.
Qed.

(** [handleTimelineCompletion] counts one repeat at most, and only when
    [shouldRepeat] allows it. *)
Lemma repeatCount_handleTimelineCompletion (time : num) (tl : Timeline) :
  repeatCount (fst (handleTimelineCompletion time tl)) = repeatCount tl \/
  (shouldRepeat tl = true /\
   repeatCount (fst (handleTimelineCompletion time tl))
   = (repeatCount tl + JS.Fin 1)%num).
Proof.
  unfold handleTimelineCompletion, handleRepeatForward, handleRepeatBackward.
  destruct (playDirection tl).
  - destruct (currentTime tl >=? _)%num; [| left; reflexivity].
    destruct (shouldRepeat tl) eqn:E.
    + right. split; [reflexivity |]. simpl. destruct (shouldYoyo tl); reflexivity.
    + left. pose proof (repeatCount_pause tl) as H. destruct (pause tl). exact H.
  - destruct (currentTime tl <=? _)%num; [| left; reflexivity].
    destruct (shouldRepeat tl) eqn:E.
    + right. split; reflexivity.
    + left. pose proof (repeatCount_pause tl) as H. destruct (pause tl). exact H.
Qed.

Lemma withinBudget_count (R : Z) (tl : Timeline) :
  repeat tl = JS.Fin (inject_Z R) ->
  withinBudget R tl ->
  shouldRepeat tl = true ->
  exists k : Z, (repeatCount tl + JS.Fin 1)%num ==n JS.Fin (inject_Z k)
                /\ (0 <= k <= R)%Z.
Proof.
  intros HR (k & Hk & Hk0) Hs. unfold shouldRepeat in Hs. rewrite HR in Hs.
  destruct (repeatCount tl) as [| q]; [contradiction |]. simpl in Hk, Hs.
  assert (Hlt : (k < R)%Z).
  { apply orb_true_iff in Hs. destruct Hs as [Hs | Hs].
    - apply negb_true_iff, Qle_bool_false in Hs. rewrite Hk in Hs.
      rewrite <- Zlt_Qlt in Hs. exact Hs.
    - apply Qeq_bool_iff in Hs. apply (inject_Z_injective R (-1)) in Hs. lia. }
  exists (k + 1)%Z. split; [| lia].
  simpl. rewrite inject_Z_plus, Hk. reflexivity.
Qed.

Lemma withinBudget_eq (R : Z) (tl tl' : Timeline) :
  repeatCount tl' = repeatCount tl -> withinBudget R tl -> withinBudget R tl'.
Proof. unfold withinBudget. intros ->. auto. Qed.

Lemma withinBudget_zero (R : Z) (tl : Timeline) :
  (0 <= R)%Z -> repeatCount tl = JS.Fin 0 -> withinBudget R tl.
Proof.
  intros HR H. exists 0%Z. rewrite H. split; [reflexivity | lia].
Qed.

Lemma withinBudget_runAnimations (R : Z) (time : num) (id : nat) (tl : Timeline) :
  repeat tl = JS.Fin (inject_Z R) ->
  withinBudget R tl -> withinBudget R (fst (runAnimations time id tl)).
Proof.
  intros HR H. unfold runAnimations.
  set (tl1 := match startTime tl with
              | Some s => if JS.truthy s then tl else set_startTime (Some time) tl
              | None => set_startTime (Some time) tl
              end).
  assert (H1 : repeatCount (calculateCurrentTime time tl1) = repeatCount tl
               /\ repeat (calculateCurrentTime time tl1) = repeat tl).
  { subst tl1. destruct (startTime tl) as [s |]; [destruct (JS.truthy s) |];
      split; reflexivity. }
  destruct H1 as [H1 H1'].
  pose proof (repeatCount_handleTimelineCompletion time (calculateCurrentTime time tl1)) as H2.
  destruct (handleTimelineCompletion time (calculateCurrentTime time tl1)) as [tl2 es3].
  cbn [fst] in H2.
  assert (H3 : withinBudget R tl2).
  { destruct H2 as [H2 | [Hs H2]].
    - apply (withinBudget_eq R tl); [congruence | exact H].
    - unfold withinBudget. rewrite H2.
      apply withinBudget_count; [congruence | | exact Hs].
      apply (withinBudget_eq R tl); [exact H1 | exact H]. }
  unfold requestNextFrame. destruct (isPlaying tl2); exact H3.
Qed.

Lemma withinBudget_perform (defaultEasing : Easing) (R : Z) (tl : Timeline)
    (a : action) :
  (0 <= R)%Z ->
  repeat tl = JS.Fin (inject_Z R) ->
  withinBudget R tl ->
  withinBudget R (perform defaultEasing tl a) /\
  repeat (perform defaultEasing tl a) = JS.Fin (inject_Z R).
Proof.
  intros HR0 HR H. split.
  - destruct a; cbn [perform].
    + exact H.
    + match goal with |- withinBudget _ (addLabel _ ?p _) => destruct p end; exact H.
    + destruct (repeatCount_play from now id tl) as [E | E].
      * apply (withinBudget_eq R tl); assumption.
      * apply withinBudget_zero; assumption.
    + apply (withinBudget_eq R tl); [apply repeatCount_pause | exact H].
    + apply (withinBudget_eq R tl); [apply repeatCount_reverse | exact H].
    + unfold togglePlayPause. destruct (isPlaying tl).
      * apply (withinBudget_eq R tl); [apply repeatCount_pause | exact H].
      * destruct (playDirection tl).
        -- destruct (repeatCount_play PUndefined now id tl) as [E | E].
           ++ apply (withinBudget_eq R tl); assumption.
           ++ apply withinBudget_zero; assumption.
        -- apply (withinBudget_eq R tl); [apply repeatCount_reverse | exact H].
    + exact H.
    + unfold progress. destruct (_ || _); exact H.
    + exact H.
    + apply withinBudget_runAnimations; assumption.
  - destruct (isBuilder a) eqn:Hb.
    + destruct a; try discriminate Hb; cbn [perform]; [exact HR |].
      match goal with |- repeat (addLabel _ ?p _) = _ => destruct p end; exact HR.
    + destruct (sameSchedule_perform defaultEasing tl a Hb) as (_ & _ & _ & E & _).
      rewrite E. exact HR.
Qed.

(** X16.  The repeat counter stays within the budget.  On a timeline
    built with a whole number [R >= 0] as [repeat], whatever methods are
    called and frames delivered, [repeatCount] is a whole number between 0
    and [R]. *)
Theorem repeat_count_stays_within_budget (defaultEasing : Easing)
    (o : TimelineOptions.t) (R : Z) (actions : list action) :
  (0 <= R)%Z ->
  repeat (new o) = JS.Fin (inject_Z R) ->
  exists k : Z,
    repeatCount (run defaultEasing o actions) ==n JS.Fin (inject_Z k) /\
    (0 <= k <= R)%Z.
Proof.
  intros HR0 HR.
  assert (H : withinBudget R (run defaultEasing o actions) /\
              repeat (run defaultEasing o actions) = JS.Fin (inject_Z R)).
  { induction actions as [| a actions IH] using rev_ind.
    - split; [| exact HR]. apply withinBudget_zero; [exact HR0 | reflexivity].
    - rewrite run_snoc. destruct IH as [IH1 IH2].
      apply withinBudget_perform; assumption. }
  exact (proj1 H).
Qed.

Lemma repeat_count_stays_within_budget_witness :
  exists k : Z,
    repeatCount (run Sample.linear Sample.twiceOptions
                   [DoReverse (JS.Fin 100) 1; DoFrame (JS.Fin 1200) 2])
    ==n JS.Fin (inject_Z k) /\ (0 <= k <= 2)%Z.
Proof.
  apply (repeat_count_stays_within_budget Sample.linear Sample.twiceOptions 2);
    [discriminate | reflexivity].
Defined.


(** ** Which properties a tween animates *)

(** The operator that the expression of the relative values captures is
    ['+='] or ['-=']. *)
Lemma matchRelativeValue_operator (s op g : string) :
  Text.matchRelativeValue s = Some (op, g) -> op = "+=" \/ op = "-=".
Proof.
  unfold Text.matchRelativeValue.
  destruct s as [| c [| c2 r]]; try discriminate. intros H.
  assert (E : c2 = "="%char).
  { destruct (Ascii.eqb_spec c2 "=") as [E | Hne]; [exact E |]. exfalso.
    destruct c2 as [[] [] [] [] [] [] [] []]; simpl in H; try discriminate H.
    apply Hne. reflexivity. }
  subst c2. cbv iota beta in H.
  destruct (Ascii.eqb c "+") eqn:Ep.
  - apply Ascii.eqb_eq in Ep. subst c. simpl in H.
    destruct (Text.scanNumber false r) as [[g' [| ? ?]] |]; try discriminate H.
    injection H as <- _. left. reflexivity.
  - destruct (Ascii.eqb c "-") eqn:Em; simpl in H; [| discriminate H].
    apply Ascii.eqb_eq in Em. subst c.
    destruct (Text.scanNumber false r) as [[g' [| ? ?]] |]; try discriminate H.
    injection H as <- _. right. reflexivity.
Qed.






(** ** Playing backward *)

(** X18.  Without repeat, playing backward from a non-zero anchor [s]: a
    frame at [t] puts the playhead at [max(0, duration - (t - s))].  While
    that is above 0 it calls [onUpdate] only and a playing timeline
    requests the next frame.  Once [t - s] reaches the duration the
    playhead is 0, the timeline is paused (not playing, paused, no frame
    handle), [onUpdate] and then [onReverseComplete] are called, not
    [onComplete], and no further frame is requested. *)
Theorem backward_frame_without_repeat (tl : Timeline) (t s d c : Q) (id : nat) :
  startTime tl = Some (JS.Fin s) -> ~ (s == 0)%Q ->
  duration tl = JS.Fin d ->
  JS.eqb (repeat tl) (JS.Fin 0) = true ->
  repeatCount tl = JS.Fin c -> (0 <= c)%Q ->
  playDirection tl = backward ->
  let tl' := fst (runAnimations (JS.Fin t) id tl) in
  let es := snd (runAnimations (JS.Fin t) id tl) in
  currentTime tl' ==n JS.Fin (Qmax 0 (d - (t - s))) /\
  ((t - s < d)%Q ->
     isPlaying tl' = isPlaying tl /\ isPaused tl' = isPaused tl /\
     List.filter isCall es = call (onUpdateCallback tl) /\
     List.filter isRequest es = if isPlaying tl then [RequestAnimFrame id] else []) /\
  ((d <= t - s)%Q ->
     isPlaying tl' = false /\ isPaused tl' = true /\
     animationFrameId tl' = None /\
     List.filter isCall es
     = call (onUpdateCallback tl) ++ call (onReverseCompleteCallback tl) /\
     List.filter isRequest es = []).
Proof.
  intros Hs Hs0 Hd Hrep Hc Hc0 Hdir. cbv zeta.
  split.
  { rewrite currentTime_runAnimations, Hs. simpl JS.truthy.
    apply Qeq_bool_false in Hs0. rewrite Hs0. simpl negb. cbv iota.
    unfold calculateCurrentTime. rewrite Hs, Hrep, Hdir, Hd. simpl.
    apply max_zero. reflexivity. }
  unfold runAnimations. rewrite Hs. simpl JS.truthy.
  apply Qeq_bool_false in Hs0. rewrite Hs0. simpl negb. cbv iota.
  assert (Hcalc : exists z, calculateCurrentTime (JS.Fin t) tl
                            = set_currentTime (JS.Fin z) tl
                            /\ ((z <= 0)%Q <-> (d <= t - s)%Q)).
  { unfold calculateCurrentTime. rewrite Hs, Hrep, Hdir, Hd. simpl.
    case_Qle 0%Q (d - (t - s))%Q; eexists; (split; [reflexivity |]); lra. }
  destruct Hcalc as (z & Hcalc & Hz). rewrite Hcalc.
  set (tl2 := set_currentTime (JS.Fin z) tl).
  pose proof (processAnimations_isOnChange tl2) as Hp.
  pose proof (filter_isCall_isOnChange _ Hp) as Hp1.
  pose proof (filter_isRequest_isOnChange _ Hp) as Hp2.
  assert (Hsr : shouldRepeat tl2 = false)
    by (apply (shouldRepeat_without_repeat tl2 c); assumption).
  unfold handleTimelineCompletion.
  change (playDirection tl2) with (playDirection tl). rewrite Hdir.
  change (currentTime tl2) with (JS.Num (JS.Fin z)). cbn [JS.ToNumber].
  rewrite Hsr. unfold JS.leb.
  unfold handleTimelineUpdate, requestNextFrame.
  case_Qle z 0%Q.
  - unfold pause. simpl animationFrameId.
    destruct (animationFrameId tl) as [fid |] eqn:Ef; cbn [fst snd isPlaying
      isPlayingInternal set_animationFrameId set_isPausedInternal
      set_isPlayingInternal isPaused isPausedInternal currentTime tl2
      set_currentTime animationFrameId onCompleteCallback onUpdateCallback].
    all: split; [intros; lra |]; intros _.
    all: rewrite !List.filter_app, Hp1, Hp2, !filter_isCall_call.
    all: repeat split; try exact Ef.
    all: subst tl2; simpl.
    all: destruct (onUpdateCallback tl), (onReverseCompleteCallback tl); reflexivity.
  - change (isPlaying tl2) with (isPlaying tl).
    destruct (isPlaying tl) eqn:Ep; cbn [fst snd].
    all: split; [intros _ | intros; lra].
    all: rewrite !List.filter_app, Hp1, Hp2, !filter_isCall_call.
    all: repeat split; try exact Ep.
    all: subst tl2; simpl.
    all: destruct (onUpdateCallback tl); reflexivity.
Qed.


Lemma backward_frame_without_repeat_witness :
  isPlaying (fst (runAnimations (JS.Fin 6100) 4 Sample.reversing)) = false /\
  isPaused (fst (runAnimations (JS.Fin 6100) 4 Sample.reversing)) = true /\
  List.filter isCall (snd (runAnimations (JS.Fin 6100) 4 Sample.reversing))
  = [Call (Host 2); Call (Host 4)].
Proof.
  assert (Hs0 : ~ (5000 == 0)%Q) by discriminate.
  assert (Hc0 : (0 <= 0)%Q) by discriminate.
  assert (Hend : (1000 <= 6100 - 5000)%Q) by discriminate.
  destruct (backward_frame_without_repeat Sample.reversing 6100 5000 1000 0 4
              eq_refl Hs0 eq_refl eq_refl eq_refl Hc0 eq_refl)
    as (_ & _ & H).
  destruct (H Hend) as (H1 & H2 & _ & H4 & _).
  split; [exact H1 |]. split; [exact H2 | exact H4].
Defined.


(** ** The tokens of the relative positions and values *)

Lemma string_app_cons (c : ascii) (a b : string) :
  (String c a ++ b)%string = String c (a ++ b)%string.
Proof. reflexivity. Qed.

Lemma string_app_nil_r (s : string) : (s ++ "")%string = s.
Proof.
  induction s as [| c s IH]; [reflexivity |].
  rewrite string_app_cons, IH. reflexivity.
Qed.

Lemma string_app_assoc (a b c : string) :
  ((a ++ b) ++ c)%string = (a ++ (b ++ c))%string.
Proof.
  induction a as [| x a IH]; [reflexivity |].
  rewrite !string_app_cons, IH. reflexivity.
Qed.

Lemma spanDigits_spec (s : string) :
  s = (fst (Text.spanDigits s) ++ snd (Text.spanDigits s))%string /\
  allDigits (fst (Text.spanDigits s)) = true /\
  startsWithDigit (snd (Text.spanDigits s)) = false.
Proof.
  induction s as [| c s (IH1 & IH2 & IH3)]; [repeat split |].
  simpl. destruct (Text.isDigit c) eqn:E.
  - destruct (Text.spanDigits s) as [ds rest]. simpl in *.
    rewrite E, IH2. repeat split; [| exact IH3].
    rewrite string_app_cons, <- IH1. reflexivity.
  - simpl. rewrite E. repeat split.
Qed.

Lemma spanDigits_app (ds r : string) :
  allDigits ds = true -> startsWithDigit r = false ->
  Text.spanDigits (ds ++ r) = (ds, r).
Proof.
  intros Hd Hr. induction ds as [| c ds IH].
  - change (("" ++ r)%string) with r.
    destruct r as [| c r]; [reflexivity |]. simpl in *. rewrite Hr. reflexivity.
  - rewrite string_app_cons. simpl in *.
    apply andb_true_iff in Hd. destruct Hd as [Hc Hd].
    rewrite Hc, (IH Hd). reflexivity.
Qed.


(** What the scan of a number leaves of the input, given the sign
    already taken. *)
Lemma scanNumber_tail (sign r g rest : string) :
  sign = "" \/ sign = "-" \/ sign = "+" ->
  (let '(ds, r1) := Text.spanDigits r in
   let whole := if Text.nonEmpty ds then Some ((sign ++ ds)%string, r1) else None in
   match r1 with
   | String "." r2 =>
       let '(fs, r3) := Text.spanDigits r2 in
       if Text.nonEmpty fs
       then Some ((sign ++ ds ++ "." ++ fs)%string, r3) else whole
   | _ => whole
   end) = Some (g, rest) ->
  numeral g /\ (sign ++ r)%string = (g ++ rest)%string.
Proof.
  intros Hsign.
  destruct (spanDigits_spec r) as (Hr & Hds & _).
  destruct (Text.spanDigits r) as [ds r1]. simpl fst in *. simpl snd in *.
  assert (Hwhole : (if Text.nonEmpty ds then Some ((sign ++ ds)%string, r1) else None)
                   = Some (g, rest) ->
                   numeral g /\ (sign ++ r)%string = (g ++ rest)%string).
  { destruct (Text.nonEmpty ds) eqn:En; [| discriminate].
    intros H. injection H as <- <-. split.
    - apply numeral_whole; assumption.
    - rewrite string_app_assoc, <- Hr. reflexivity. }
  destruct r1 as [| c1 r2]; [exact Hwhole |].
  destruct (Ascii.eqb_spec c1 ".") as [-> | Hne].
  - cbv zeta iota beta.
    destruct (spanDigits_spec r2) as (Hr2 & Hfs & _).
    destruct (Text.spanDigits r2) as [fs r3]. simpl fst in *. simpl snd in *.
    destruct (Text.nonEmpty fs) eqn:En; [| exact Hwhole].
    intros H. injection H as <- <-. split.
    + apply numeral_fraction; assumption.
    + rewrite Hr, Hr2. rewrite !string_app_assoc. reflexivity.
  - destruct c1 as [[] [] [] [] [] [] [] []];
      try exact Hwhole. contradiction Hne. reflexivity.
Qed.

(** The capture of the sub-pattern is a numeral, and it is a prefix of
    the input. *)
Lemma scanNumber_numeral (plus : bool) (s g rest : string) :
  Text.scanNumber plus s = Some (g, rest) ->
  numeral g /\ s = (g ++ rest)%string.
Proof.
  unfold Text.scanNumber. destruct s as [| c s].
  - intros H. apply (scanNumber_tail "" "" g rest); [left; reflexivity | exact H].
  - destruct (Ascii.eqb c "-") eqn:Em.
    + apply Ascii.eqb_eq in Em. subst c. cbn [orb]. intros H.
      apply (scanNumber_tail "-" s g rest); [right; left; reflexivity | exact H].
    + cbn [orb]. destruct plus; cbn [andb].
      * destruct (Ascii.eqb c "+") eqn:Ep.
        -- apply Ascii.eqb_eq in Ep. subst c. intros H.
           apply (scanNumber_tail "+" s g rest); [right; right; reflexivity | exact H].
        -- intros H.
           apply (scanNumber_tail "" (String c s) g rest); [left; reflexivity | exact H].
      * intros H.
        apply (scanNumber_tail "" (String c s) g rest); [left; reflexivity | exact H].
Qed.

Lemma matchRelativePosition_numeral (s : string) (c : ascii) (e : bool) (g : string) :
  Text.matchRelativePosition s = Some (c, e, g) ->
  numeral g /\ (c = "<"%char \/ c = ">"%char) /\
  String.eqb s ">" = false /\ String.eqb s "<" = false.
Proof.
  unfold Text.matchRelativePosition. destruct s as [| c0 r]; [discriminate |].
  destruct (Ascii.eqb c0 "<" || Ascii.eqb c0 ">") eqn:Ec; [| discriminate].
  assert (Hr : r <> "" -> String.eqb (String c0 r) ">" = false
                          /\ String.eqb (String c0 r) "<" = false).
  { intros Hne. destruct r as [| a r]; [contradiction |]. split.
    - change (Ascii.eqb c0 ">" && false = false). apply andb_false_r.
    - change (Ascii.eqb c0 "<" && false = false). apply andb_false_r. }
  assert (Hc : c0 = "<"%char \/ c0 = ">"%char).
  { apply orb_true_iff in Ec. destruct Ec as [E | E];
      apply Ascii.eqb_eq in E; auto. }
  intros H.
  assert (Hg : numeral g /\ r <> "").
  { destruct r as [| c1 r1].
    - simpl in H. discriminate H.
    - destruct (Ascii.eqb_spec c1 "=") as [-> | Hne].
      + cbv iota beta zeta in H.
        destruct (Text.scanNumber true r1) as [[g0 rest] |] eqn:Es; [| discriminate H].
        injection H as _ _ <-.
        destruct (scanNumber_numeral true r1 g0 rest Es) as [Hg _].
        split; [exact Hg | discriminate].
      + assert (H' : match Text.scanNumber true (String c1 r1) with
                     | Some (g0, _) => Some (c0, false, g0)
                     | None => None
                     end = Some (c, e, g)).
        { destruct c1 as [[] [] [] [] [] [] [] []]; try exact H.
          contradiction Hne. reflexivity. }
        destruct (Text.scanNumber true (String c1 r1)) as [[g0 rest] |] eqn:Es;
          [| discriminate H'].
        injection H' as _ _ <-.
        destruct (scanNumber_numeral true _ g0 rest Es) as [Hg _].
        split; [exact Hg | discriminate]. }
  destruct Hg as [Hg Hne]. destruct (Hr Hne) as [H1 H2].
  assert (c = c0).
  { destruct r as [| c1 r1]; [contradiction |].
    destruct (Ascii.eqb_spec c1 "=") as [-> | Hne'].
    - cbv iota beta zeta in H.
      destruct (Text.scanNumber true r1) as [[g0 rest] |]; [| discriminate H].
      injection H as <- _ _. reflexivity.
    - assert (H' : match Text.scanNumber true (String c1 r1) with
                   | Some (g0, _) => Some (c0, false, g0)
                   | None => None
                   end = Some (c, e, g)).
      { destruct c1 as [[] [] [] [] [] [] [] []]; try exact H.
        contradiction Hne'. reflexivity. }
      destruct (Text.scanNumber true (String c1 r1)) as [[g0 rest] |];
        [| discriminate H'].
      injection H' as <- _ _. reflexivity. }
  subst c0. repeat split; assumption.
Qed.


(** X19.  Every token that the expression of the relative positions
    accepts ([<] or [>], an optional [=], a numeral) is placed by the
    relative rule and never left without a position.  The captured text
    is a numeral (an optional sign, digits, an optional fraction); the
    entry is placed [Number(numeral) * 1000] after the start of the
    previous entry for [<], after its end for [>]; the [=] changes
    nothing. *)
Theorem relative_position_is_resolved (s : string) (c : ascii) (e : bool)
    (g : string) (tl : Timeline) :
  Text.matchRelativePosition s = Some (c, e, g) ->
  numeral g /\
  (c = "<"%char \/ c = ">"%char) /\
  resolvePosition (PString s) tl
  = Some (JS.Num
            (if Ascii.eqb c "<"
             then (previousStart tl + Text.Number g * JS.Fin 1000)%num
             else (previousStart tl + previousDuration tl
                   + Text.Number g * JS.Fin 1000)%num)).
Proof.
  intros H.
  destruct (matchRelativePosition_numeral s c e g H) as (Hg & Hc & H1 & H2).
  split; [exact Hg |]. split; [exact Hc |].
  unfold resolvePosition. rewrite H1, H2, H.
  destruct Hc as [-> | ->]; reflexivity.
Qed.

Lemma relative_position_is_resolved_witness :
  resolvePosition (PString ">=0.5") Sample.twoSeconds
  = Some (JS.Num (previousStart Sample.twoSeconds
                  + previousDuration Sample.twoSeconds
                  + Text.Number "0.5" * JS.Fin 1000)%num).
Proof.
  apply (relative_position_is_resolved ">=0.5" ">" true "0.5" Sample.twoSeconds).
  reflexivity.
Defined.

Lemma matchRelativeValue_numeral (s op g : string) :
  Text.matchRelativeValue s = Some (op, g) -> numeral g.
Proof.
  unfold Text.matchRelativeValue.
  destruct s as [| c [| c2 r]]; try discriminate. intros H.
  assert (E : c2 = "="%char).
  { destruct (Ascii.eqb_spec c2 "=") as [E | Hne]; [exact E |]. exfalso.
    destruct c2 as [[] [] [] [] [] [] [] []]; simpl in H; try discriminate H.
    apply Hne. reflexivity. }
  subst c2. cbv iota beta in H.
  destruct (Ascii.eqb c "+" || Ascii.eqb c "-"); [| discriminate H].
  destruct (Text.scanNumber false r) as [[g' rest] |] eqn:Es; [| discriminate H].
  destruct rest; [| discriminate H]. injection H as _ <-.
  apply (scanNumber_numeral false r g' "" Es).
Qed.

(** X20.  A relative end value is always recorded.  When the expression
    of the relative values accepts the string, the operator is ['+='] or
    ['-='], the captured text is a numeral, and [to] records the end
    value [start + parseFloat(numeral)] for ['+='] and
    [start - parseFloat(numeral)] for ['-='], [start] being what the
    target holds ([undefined] reads as [NaN]): the property is never left
    without an end value. *)
Theorem relative_value_is_resolved (s op g : string) (start : option num) :
  Text.matchRelativeValue s = Some (op, g) ->
  numeral g /\
  ((op = "+=" /\
    endValueOf start (VString s)
    = Some (VNumber (toNumber start + Text.parseFloat g)%num)) \/
   (op = "-=" /\
    endValueOf start (VString s)
    = Some (VNumber (toNumber start - Text.parseFloat g)%num))).
Proof.
  intros H. split; [exact (matchRelativeValue_numeral s op g H) |].
  unfold endValueOf. rewrite H.
  destruct (matchRelativeValue_operator s op g H) as [-> | ->];
    [left | right]; split; reflexivity.
Qed.

Lemma relative_value_is_resolved_witness :
  endValueOf (Some (JS.Fin 10)) (VString "-=50")
  = Some (VNumber (JS.Fin 10 - Text.parseFloat "50")%num).
Proof.
  destruct (relative_value_is_resolved "-=50" "-=" "50" (Some (JS.Fin 10)) eq_refl)
    as [_ [[H _] | [_ H]]].
  - discriminate H.
  - exact H.
Defined.


(** X21.  With a [repeat] other than 0 and no [repeatDelay], playing
    backward without yoyo, no frame ends a cycle either: the playhead is
    the duration minus the elapsed time modulo the duration, always above
    0, so the frame counts no repeat, calls neither [onRepeat] nor
    [onReverseComplete] (only [onUpdate]), keeps the direction and the
    flags, and a playing timeline requests the next frame. *)
Theorem backward_repeat_never_completes (tl : Timeline) (t d r : Q) (id : nat) :
  duration tl = JS.Fin d ->
  repeatDelay tl = JS.Fin r -> (r == 0)%Q ->
  (0 < d)%Q ->
  JS.eqb (repeat tl) (JS.Fin 0) = false ->
  playDirection tl = backward ->
  shouldYoyo tl = false ->
  let tl' := fst (runAnimations (JS.Fin t) id tl) in
  let es := snd (runAnimations (JS.Fin t) id tl) in
  (exists c, currentTime tl' = JS.Fin c /\ (0 < c)%Q) /\
  repeatCount tl' = repeatCount tl /\
  playDirection tl' = backward /\
  isPlaying tl' = isPlaying tl /\
  isPaused tl' = isPaused tl /\
  List.filter isCall es = call (onUpdateCallback tl) /\
  List.filter isRequest es = if isPlaying tl then [RequestAnimFrame id] else [].
Proof.
  intros Hd Hr Hr0 Hd0 Hrep Hdir Hyoyo. cbv zeta. unfold runAnimations.
  destruct (frame_anchor t tl) as (s & -> & _).
  set (tl1 := set_startTime (Some (JS.Fin s)) tl).
  assert (Hcd : (0 < d + r * 1000)%Q) by lra.
  destruct (rem_lt (t - s) (d + r * 1000) Hcd) as (z & Hz & Hlt).
  assert (Hc : exists c, calculateCurrentTime (JS.Fin t) tl1
                         = set_currentTime (JS.Fin c) tl1 /\ (0 < c)%Q).
  { unfold calculateCurrentTime. subst tl1. simpl.
    rewrite Hrep, Hyoyo, Hdir, Hd, Hr. simpl. simpl in Hz. rewrite Hz. simpl.
    case_Qle 0%Q (d - z)%Q; [| lra].
    eexists. split; [reflexivity | lra]. }
  destruct Hc as (c & Hc & Hc0). rewrite Hc.
  set (tl2 := set_currentTime (JS.Fin c) tl1).
  assert (Hh : handleTimelineCompletion (JS.Fin t) tl2 = (tl2, [])).
  { unfold handleTimelineCompletion. subst tl2 tl1. simpl.
    rewrite Hdir. simpl.
    case_Qle c 0%Q; [lra | reflexivity]. }
  rewrite Hh. unfold requestNextFrame.
  change (isPlaying tl2) with (isPlaying tl).
  pose proof (processAnimations_isOnChange tl2) as Hp.
  pose proof (filter_isCall_isOnChange _ Hp) as Hp1.
  pose proof (filter_isRequest_isOnChange _ Hp) as Hp2.
  unfold handleTimelineUpdate.
  change (onUpdateCallback tl2) with (onUpdateCallback tl).
  destruct (isPlaying tl) eqn:Ep; cbn [fst snd].
  all: rewrite !List.filter_app, Hp1, Hp2, !filter_isCall_call.
  all: split; [exists c; split; [reflexivity | exact Hc0] |].
  all: repeat split; try assumption.
  all: destruct (onUpdateCallback tl); reflexivity.
Qed.

Lemma backward_repeat_never_completes_witness :
  repeatCount (fst (runAnimations (JS.Fin 5000) 6 Sample.repeatTwiceBackward))
  = repeatCount Sample.repeatTwiceBackward /\
  isPlaying (fst (runAnimations (JS.Fin 5000) 6 Sample.repeatTwiceBackward)) = true.
Proof.
  assert (Hr0 : (0 == 0)%Q) by reflexivity.
  destruct (backward_repeat_never_completes Sample.repeatTwiceBackward 5000 1000 0 6
              eq_refl eq_refl Hr0 eq_refl eq_refl eq_refl eq_refl)
    as (_ & H2 & _ & H4 & _).
  split; [exact H2 | exact H4].
Defined.


(** ** Reversing during playback *)

(** X22.  [reverse()] on a playing timeline requests no frame and leaves
    the flags and the frame handle alone: it turns the direction backward
    and moves the anchor.  Without repeat, with the playhead at [c] and an
    anchor other than 0, the next frame, at [t], puts the playhead at
    [max(0, c - (t - now))]: playback runs back from where it was. *)
Theorem reverse_while_playing (tl : Timeline) (now t c d : Q) (id id' : nat) :
  isPlaying tl = true ->
  currentTime tl = JS.Fin c ->
  duration tl = JS.Fin d ->
  JS.eqb (repeat tl) (JS.Fin 0) = true ->
  ~ (now - (d - c) == 0)%Q ->
  let tl' := fst (reverse (JS.Fin now) id tl) in
  snd (reverse (JS.Fin now) id tl) = [] /\
  playDirection tl' = backward /\
  isPlaying tl' = true /\ isPaused tl' = isPaused tl /\
  animationFrameId tl' = animationFrameId tl /\
  currentTime tl' = JS.Fin c /\
  currentTime (fst (runAnimations (JS.Fin t) id' tl'))
  ==n JS.Fin (Qmax 0 (c - (t - now))).
Proof.
  intros Hp Hc Hd Hrep Hs0. cbv zeta.
  unfold reverse. unfold isPlaying in *. simpl. rewrite Hp. simpl.
  repeat split; try assumption.
  rewrite currentTime_runAnimations. simpl. rewrite Hc, Hd. simpl.
  apply Qeq_bool_false in Hs0. rewrite Hs0. simpl.
  unfold calculateCurrentTime. simpl. rewrite Hrep, Hd. simpl.
  apply max_zero. ring.
Qed.

Lemma reverse_while_playing_witness :
  currentTime (fst (runAnimations (JS.Fin 716) 6
                      (fst (reverse (JS.Fin 700) 5
                              (fst (runAnimations (JS.Fin 600) 2 Sample.playingOnce))))))
  ==n JS.Fin (Qmax 0 ((600 - 100) - (716 - 700))).
Proof.
  assert (Hs0 : ~ (700 - (1000 - (600 - 100)) == 0)%Q)
    by (intros H; vm_compute in H; discriminate H).
  destruct (reverse_while_playing
              (fst (runAnimations (JS.Fin 600) 2 Sample.playingOnce))
              700 716 (600 - 100) 1000 5 6 eq_refl eq_refl eq_refl eq_refl Hs0)
    as (_ & _ & _ & _ & _ & _ & H).
  exact H.
Defined.

(** ** Frames and the playhead *)

(** X23.  A frame computes the playhead from the anchor, not from the
    playhead it finds: whatever [seek] or [progress] did to [currentTime]
    since the last frame is gone after the next one. *)
Theorem frame_forgets_the_playhead (time x : Q) (id : nat) (tl : Timeline) :
  currentTime (fst (runAnimations (JS.Fin time) id (fst (seek (JS.Fin x) tl))))
  = currentTime (fst (runAnimations (JS.Fin time) id tl)) /\
  currentTime (fst (runAnimations (JS.Fin time) id (fst (progress (JS.Fin x) tl))))
  = currentTime (fst (runAnimations (JS.Fin time) id tl)).
Proof.
  assert (H : forall v,
             currentTime (fst (runAnimations (JS.Fin time) id (set_currentTime v tl)))
             = currentTime (fst (runAnimations (JS.Fin time) id tl))).
  { intros v. rewrite !currentTime_runAnimations. simpl startTime.
    destruct (startTime tl) as [s |]; [destruct (JS.truthy s) |]; reflexivity. }
  split.
  - apply H.
  - unfold progress. destruct (_ || _); [reflexivity | apply H].
Qed.

(** ** The order of the calls *)

Lemma entriesOf_app (es es' : list event) :
  entriesOf (es ++ es') = entriesOf es ++ entriesOf es'.
Proof. apply omap_app. Qed.

Lemma increasingFrom_weaken (k k' n : nat) (l : list nat) :
  (k' <= k)%nat -> increasingFrom k n l -> increasingFrom k' n l.
Proof. destruct l as [| i l]; [trivial |]. simpl. intros Hk [H1 H2]. split; [lia | exact H2]. Qed.

(** A loop whose body calls at most the [onChange] of the entry it is at
    makes its calls in the order of the entries, each entry once at
    most. *)
Lemma forEachFrom_increasing (body : nat -> Animation -> list event)
    (k : nat) (l : list Animation) :
  (forall i a, entriesOf (body i a) = [] \/ entriesOf (body i a) = [i]) ->
  increasingFrom k (k + length l) (entriesOf (forEachFrom k body l)).
Proof.
  intros Hbody. revert k. induction l as [| b l IH]; intros k; [exact I |].
  simpl forEachFrom. rewrite entriesOf_app.
  specialize (IH (S k)). simpl length.
  replace (k + S (length l))%nat with (S k + length l)%nat by lia.
  destruct (Hbody k b) as [-> | ->]; simpl.
  - apply (increasingFrom_weaken (S k)); [lia | exact IH].
  - split; [lia | exact IH].
Qed.

Lemma entriesOf_callOnChange (i : nat) (a : Animation) (v : num) :
  entriesOf (callOnChange i a v) = [] \/ entriesOf (callOnChange i a v) = [i].
Proof.
  unfold callOnChange. destruct (AnimationOptions.onChange (options a));
    [right | left]; reflexivity.
Qed.

(** X24.  Entries are evaluated in insertion order.  The [onChange] calls
    of a [seek] and of the frame loop are made in the order of the
    entries, each existing entry being called once at most; they are the
    only events of [seek], and [seek] calls every entry that has an
    [onChange]. *)
Theorem calls_follow_insertion_order (t : num) (tl : Timeline) :
  increasingFrom 0 (length (animations tl)) (entriesOf (snd (seek t tl))) /\
  increasingFrom 0 (length (animations tl)) (entriesOf (processAnimations tl)) /\
  length (snd (seek t tl))
  = length (List.filter (fun a => bool_decide (is_Some (AnimationOptions.onChange (options a))))
                        (animations tl)).
Proof.
  split; [| split].
  - rewrite seek_events.
    apply (forEachFrom_increasing _ 0). intros i a. apply entriesOf_callOnChange.
  - unfold processAnimations.
    apply (forEachFrom_increasing _ 0). intros i a. unfold processAnimation.
    destruct (_ && _); [apply entriesOf_callOnChange | left; reflexivity].
  - rewrite seek_events. generalize 0%nat.
    induction (animations tl) as [| a l IH]; intros k; [reflexivity |].
    simpl. rewrite length_app, IH. unfold callOnChange.
    destruct (AnimationOptions.onChange (options a)); reflexivity.
Qed.
